(** * intrusive_ptr / intrusive_ref_counter (solution.h)

    A shallow embedding of the handle type [intrusive_ptr<T>] and of the
    counter mixin [intrusive_ref_counter<Derived>], followed by the
    properties of the reference-counting protocol.

    The embedding is sequential: every atomic read-modify-write of the
    counter is one step of the state monad below, and memory orderings are
    not represented. *)

From stdpp Require Import gmap list fin_maps.
From Stdlib Require Import ZArith Lia.

Local Open Scope Z_scope.

(** ** Machine data *)

(** [details::stored_type] is [unsigned int]: 32 bits on the ILP32, LP64
    and LLP64 data models.  A counter value is a [Z] kept in
    [0 .. stored_modulus - 1] by [wrap]. *)
Definition stored_bits : Z := 32.
Definition stored_modulus : Z := 2 ^ stored_bits.
Definition stored_max : Z := stored_modulus - 1.
Definition wrap (z : Z) : Z := z mod stored_modulus.

(** A raw object address ([T*]); address 0 is [nullptr]. *)
Definition nullptr : N := 0%N.

Definition is_null (p : N) : bool := (p =? nullptr)%N.

(** ** The counter mixin as a value *)

Record intrusive_ref_counter := { counter : Z }.

(** [mutable type counter = 0;] with the defaulted default constructor. *)
Definition counter_default : intrusive_ref_counter := {| counter := 0 |}.

(** [intrusive_ref_counter(const intrusive_ref_counter&) noexcept {}]: the
    member initialiser list is empty, so [counter] takes its default member
    initialiser and the argument is not read. *)
Definition counter_copy (other : intrusive_ref_counter) : intrusive_ref_counter :=
  {| counter := 0 |}.

(** [operator=(const intrusive_ref_counter&)] is [return *this;]: the
    result is the assignee after the call; the source is a const reference. *)
Definition counter_assign (this other : intrusive_ref_counter)
  : intrusive_ref_counter :=
  this.

(** ** Program state *)

(** Ghost log of what happened to counters and objects, oldest first. *)
Inductive event :=
| EvInc (p : N)             (* [inc] ran on the object at [p] *)
| EvDec (p : N) (pre : Z)   (* [dec] ran on [p] and returned [pre] *)
| EvDelete (p : N).         (* [delete static_cast<const Derived*>(p)] ran *)

(** [objs]: the live counted objects, by address.
    [handles]: the live [intrusive_ptr] objects, by their own address (what
    [this] and [&r] denote), each with its [obj_pointer] field.
    [trace]: the ghost log. *)
Record state := State {
  objs : gmap N intrusive_ref_counter;
  handles : gmap N N;
  trace : list event
}.

(** Computations over the state; [None] is undefined behaviour (access
    through a null or dangling pointer, or to a handle that is not alive). *)
Definition M (A : Type) : Type := state → option (A * state).

Definition ret {A} (a : A) : M A := λ s, Some (a, s).

Definition bind {A B} (m : M A) (k : A → M B) : M B :=
  λ s, match m s with
       | Some (a, s') => k a s'
       | None => None
       end.

Declare Scope m_scope.
Delimit Scope m_scope with M.
Notation "'let*' x := m 'in' k" := (bind m (λ x, k))
  (at level 10, x name, m at level 100, k at level 200) : m_scope.
Notation "m ;; k" := (bind m (λ _, k))
  (at level 100, k at level 200, right associativity) : m_scope.
Local Open Scope m_scope.

Definition log (e : event) : M unit :=
  λ s, Some (tt, State (objs s) (handles s) (trace s ++ [e])).

(** The counted object a non-null pointer designates, if it is alive. *)
Definition obj_at (p : N) (s : state) : option intrusive_ref_counter :=
  if is_null p then None else objs s !! p.

Definition read_counter (p : N) : M Z :=
  λ s, match obj_at p s with
       | Some o => Some (counter o, s)
       | None => None
       end.

Definition write_counter (p : N) (c : Z) : M unit :=
  λ s, match obj_at p s with
       | Some _ =>
           Some (tt, State (<[p := {| counter := c |}]> (objs s)) (handles s) (trace s))
       | None => None
       end.

(** ** intrusive_ref_counter members *)

(** [counter.load(std::memory_order_acquire)] *)
Definition use_count (p : N) : M Z := read_counter p.

(** [counter.fetch_add(1, std::memory_order_relaxed)] *)
Definition inc (p : N) : M unit :=
  let* c := read_counter p in
  write_counter p (wrap (c + 1)) ;;
  log (EvInc p).

(** [return counter.fetch_sub(1, std::memory_order_acq_rel)]: the value
    before the subtraction is returned. *)
Definition dec (p : N) : M Z :=
  let* c := read_counter p in
  write_counter p (wrap (c - 1)) ;;
  log (EvDec p c) ;;
  ret c.

(** [delete static_cast<const Derived*>(p)]: Derived's destructor runs and
    the object stops being alive. *)
Definition delete_obj (p : N) : M unit :=
  λ s, match obj_at p s with
       | Some _ =>
           Some (tt, State (delete p (objs s)) (handles s) (trace s ++ [EvDelete p]))
       | None => None
       end.

(** ** The two protocol operations *)

Definition intrusive_ptr_add_ref (p : N) : M unit := inc p.

Definition intrusive_ptr_release (p : N) : M unit :=
  let* pre := dec p in
  if pre =? 1 then delete_obj p else ret tt.

(** ** Construction and assignment of counted objects in memory *)

(** A Derived object is default-constructed at address [a]. *)
Definition new_obj (a : N) : M unit :=
  λ s, if is_null a then None
       else match objs s !! a with
            | Some _ => None
            | None => Some (tt, State (<[a := counter_default]> (objs s)) (handles s) (trace s))
            end.

(** A Derived object is copy-constructed at address [a] from the one at [src]. *)
Definition copy_obj (a src : N) : M unit :=
  λ s, if is_null a then None
       else match objs s !! a, obj_at src s with
            | None, Some o =>
                Some (tt, State (<[a := counter_copy o]> (objs s)) (handles s) (trace s))
            | _, _ => None
            end.

(** The mixin part of the object at [a] is copy-assigned from the one at [src]. *)
Definition assign_obj (a src : N) : M unit :=
  λ s, match obj_at a s, obj_at src s with
       | Some o, Some o' =>
           Some (tt, State (<[a := counter_assign o o']> (objs s)) (handles s) (trace s))
       | _, _ => None
       end.

(** ** intrusive_ptr members

    A handle is named by its own address [this]; its single field
    [obj_pointer] is the value stored for it in [handles]. *)

Definition load_ptr (h : N) : M N :=
  λ s, match handles s !! h with
       | Some p => Some (p, s)
       | None => None
       end.

Definition store_ptr (h p : N) : M unit :=
  λ s, match handles s !! h with
       | Some _ => Some (tt, State (objs s) (<[h := p]> (handles s)) (trace s))
       | None => None
       end.

(** Storage for a new handle at [h], its field initialised to [p]. *)
Definition alloc_handle (h p : N) : M unit :=
  λ s, match handles s !! h with
       | Some _ => None
       | None => Some (tt, State (objs s) (<[h := p]> (handles s)) (trace s))
       end.

Definition free_handle (h : N) : M unit :=
  λ s, match handles s !! h with
       | Some _ => Some (tt, State (objs s) (delete h (handles s)) (trace s))
       | None => None
       end.

(** [intrusive_ptr() noexcept = default;] with [T* obj_pointer = nullptr;] *)
Definition ctor_default (this : N) : M unit :=
  alloc_handle this nullptr.

(** [intrusive_ptr(T* p, bool add_ref = true)] *)
Definition ctor_ptr (this p : N) (add_ref : bool) : M unit :=
  alloc_handle this p ;;
  if add_ref && negb (is_null p) then intrusive_ptr_add_ref p else ret tt.

(** [intrusive_ptr(intrusive_ptr const& r)]; the converting copy
    constructor has the same body. *)
Definition ctor_copy (this r : N) : M unit :=
  let* p := load_ptr r in
  alloc_handle this p ;;
  if negb (is_null p) then intrusive_ptr_add_ref p else ret tt.

(** [intrusive_ptr(intrusive_ptr&& r)]; the converting move constructor has
    the same body. *)
Definition ctor_move (this r : N) : M unit :=
  let* p := load_ptr r in
  alloc_handle this p ;;
  store_ptr r nullptr.

(** [~intrusive_ptr()] *)
Definition dtor (this : N) : M unit :=
  let* p := load_ptr this in
  (if negb (is_null p) then intrusive_ptr_release p else ret tt) ;;
  free_handle this.

(** [void swap(intrusive_ptr& b)]: [std::swap(b.obj_pointer, this->obj_pointer)] *)
Definition swap (this b : N) : M unit :=
  let* tmp := load_ptr b in
  let* x := load_ptr this in
  store_ptr b x ;;
  store_ptr this tmp.

(** Storage for a temporary: an address at which no handle is alive. *)
Definition temporary : M N :=
  λ s, Some (fresh (dom (handles s)), s).

(** [intrusive_ptr(args).swap( *this)]: the temporary is constructed, swapped
    with [this] and destroyed at the end of the full expression. *)
Definition construct_and_swap (ctor : N → M unit) (this : N) : M unit :=
  let* t := temporary in
  ctor t ;;
  swap t this ;;
  dtor t.

(** [operator=(intrusive_ptr const& r)] *)
Definition assign_copy (this r : N) : M unit :=
  if bool_decide (this ≠ r)
  then construct_and_swap (λ t, ctor_copy t r) this
  else ret tt.

(** [operator=(intrusive_ptr<Y> const& r)], without the identity test *)
Definition assign_copy_conv (this r : N) : M unit :=
  construct_and_swap (λ t, ctor_copy t r) this.

(** [operator=(T* r)] *)
Definition assign_ptr (this r : N) : M unit :=
  construct_and_swap (λ t, ctor_ptr t r true) this.

(** [operator=(intrusive_ptr&& r)] *)
Definition assign_move (this r : N) : M unit :=
  if bool_decide (this ≠ r)
  then construct_and_swap (λ t, ctor_move t r) this
  else ret tt.

(** [operator=(intrusive_ptr<Y>&& r)], without the identity test *)
Definition assign_move_conv (this r : N) : M unit :=
  construct_and_swap (λ t, ctor_move t r) this.

(** [void reset()] *)
Definition reset (this : N) : M unit :=
  construct_and_swap ctor_default this.

(** [void reset(T* r)] *)
Definition reset_ptr (this r : N) : M unit :=
  construct_and_swap (λ t, ctor_ptr t r true) this.

(** [void reset(T* r, bool add_ref)] *)
Definition reset_ptr_add_ref (this r : N) (add_ref : bool) : M unit :=
  construct_and_swap (λ t, ctor_ptr t r add_ref) this.

(** [T* get() const] *)
Definition get (this : N) : M N := load_ptr this.

(** [T* detach()] *)
Definition detach (this : N) : M N :=
  let* current_obj_pointer := load_ptr this in
  store_ptr this nullptr ;;
  ret current_obj_pointer.

(** [explicit operator bool() const] *)
Definition to_bool (this : N) : M bool :=
  let* p := load_ptr this in
  ret (negb (is_null p)).

(** ** Sequences of handle operations *)

Inductive op :=
| CtorDefault (h : N)
| CtorPtr (h p : N) (add_ref : bool)
| CtorCopy (h r : N)
| CtorMove (h r : N)
| AssignCopy (h r : N)
| AssignCopyConv (h r : N)
| AssignPtr (h p : N)
| AssignMove (h r : N)
| AssignMoveConv (h r : N)
| Reset (h : N)
| ResetPtr (h p : N)
| ResetPtrAddRef (h p : N) (add_ref : bool)
| Detach (h : N)
| Swap (h b : N)
| Dtor (h : N).

Definition run_op (o : op) : M unit :=
  match o with
  | CtorDefault h => ctor_default h
  | CtorPtr h p a => ctor_ptr h p a
  | CtorCopy h r => ctor_copy h r
  | CtorMove h r => ctor_move h r
  | AssignCopy h r => assign_copy h r
  | AssignCopyConv h r => assign_copy_conv h r
  | AssignPtr h p => assign_ptr h p
  | AssignMove h r => assign_move h r
  | AssignMoveConv h r => assign_move_conv h r
  | Reset h => reset h
  | ResetPtr h p => reset_ptr h p
  | ResetPtrAddRef h p a => reset_ptr_add_ref h p a
  | Detach h => detach h ;; ret tt
  | Swap h b => swap h b
  | Dtor h => dtor h
  end.

Fixpoint run_ops (os : list op) : M unit :=
  match os with
  | [] => ret tt
  | o :: os' => run_op o ;; run_ops os'
  end.

(** ** Observations on the ghost log *)

(** How many times the object at [p] was deleted. *)
Fixpoint deletions (p : N) (t : list event) : nat :=
  match t with
  | [] => O
  | EvDelete q :: t' => (if (q =? p)%N then 1 else 0)%nat + deletions p t'
  | _ :: t' => deletions p t'
  end.

(** How many counter updates ([inc] or [dec]) the log records. *)
Fixpoint counter_updates (t : list event) : nat :=
  match t with
  | [] => O
  | EvInc _ :: t' => S (counter_updates t')
  | EvDec _ _ :: t' => S (counter_updates t')
  | EvDelete _ :: t' => counter_updates t'
  end.

(** Every deletion comes directly after a [dec] of the same object that
    returned 1, and every [dec] that returned 1 is directly followed by the
    deletion of its object. *)
Fixpoint well_released (t : list event) : bool :=
  match t with
  | [] => true
  | EvInc _ :: t' => well_released t'
  | EvDec p pre :: t' =>
      if pre =? 1
      then match t' with
           | EvDelete q :: t'' => (q =? p)%N && well_released t''
           | _ => false
           end
      else well_released t'
  | EvDelete _ :: _ => false
  end.

(** How many times a [dec] of the object at [p] returned 1. *)
Fixpoint last_releases (p : N) (t : list event) : nat :=
  match t with
  | [] => O
  | EvDec q pre :: t' =>
      ((if (q =? p)%N && (pre =? 1)%Z then 1 else 0) + last_releases p t')%nat
  | _ :: t' => last_releases p t'
  end.

(** The log and the memory agree: the log is well formed, no object was
    deleted twice, and a deleted object is not alive. *)
Definition consistent (s : state) : Prop :=
  well_released (trace s) = true ∧
  ∀ p, deletions p (trace s) = O ∨
       (deletions p (trace s) = 1%nat ∧ objs s !! p = None).

(** [m] keeps [P] whenever it runs to completion. *)
Definition preserves {A} (P : state → Prop) (m : M A) : Prop :=
  ∀ s a s', m s = Some (a, s') → P s → P s'.

(** ** Copies of one handle, and dropping them *)

(** [intrusive_ptr<T> c(src);] once for every address in [ids]. *)
Definition take_copies (src : N) (ids : list N) : M unit :=
  run_ops (map (λ h, CtorCopy h src) ids).

(** A copy goes away by its destructor or by [reset()]. *)
Inductive drop :=
| Destroyed (h : N)
| Emptied (h : N).

Definition drop_target (d : drop) : N :=
  match d with Destroyed h | Emptied h => h end.

Definition drop_op (d : drop) : op :=
  match d with Destroyed h => Dtor h | Emptied h => Reset h end.

(** ** The remaining members and the free operators *)

(** [T& operator*() const]: the object the handle refers to; undefined for
    a null or dangling [obj_pointer]. *)
Definition deref (this : N) : M intrusive_ref_counter :=
  let* p := load_ptr this in
  λ s, match obj_at p s with
       | Some o => Some (o, s)
       | None => None
       end.

(** [T* operator->() const] returns the stored pointer. *)
Definition arrow (this : N) : M N := load_ptr this.

(** [operator==(intrusive_ptr<T> const& a, intrusive_ptr<U> const& b)] *)
Definition eq_handles (a b : N) : M bool :=
  let* x := get a in
  let* y := get b in
  ret (x =? y)%N.

(** [operator!=(intrusive_ptr<T> const& a, intrusive_ptr<U> const& b)] *)
Definition ne_handles (a b : N) : M bool :=
  let* x := get a in
  let* y := get b in
  ret (negb (x =? y)%N).

(** [operator==(intrusive_ptr<T> const& a, U* b)] *)
Definition eq_handle_ptr (a b : N) : M bool :=
  let* x := get a in
  ret (x =? b)%N.

(** [operator!=(intrusive_ptr<T> const& a, U* b)] *)
Definition ne_handle_ptr (a b : N) : M bool :=
  let* x := get a in
  ret (negb (x =? b)%N).

(** [operator==(T* a, intrusive_ptr<U> const& b)] *)
Definition eq_ptr_handle (a b : N) : M bool :=
  let* y := get b in
  ret (a =? y)%N.

(** [operator!=(T* a, intrusive_ptr<U> const& b)] *)
Definition ne_ptr_handle (a b : N) : M bool :=
  let* y := get b in
  ret (negb (a =? y)%N).

(** [operator<]: [std::less<T*>()(a.get(), b.get())], the total order of
    pointers, here the order of addresses. *)
Definition lt_handles (a b : N) : M bool :=
  let* x := get a in
  let* y := get b in
  ret (x <? y)%N.

(** The free [swap(a, b)] is [a.swap(b)]. *)
Definition free_swap (a b : N) : M unit := swap a b.

(** ** Counted states *)

(** The state [s] with its handles replaced by [hs]. *)
Definition with_handles (hs : gmap N N) (s : state) : state :=
  State (objs s) hs (trace s).

(** The release a handle performs on the pointer it gives up. *)
Definition release_if_set (q : N) : M unit :=
  if negb (is_null q) then intrusive_ptr_release q else ret tt.

(** The number of live handles whose [obj_pointer] is [p]. *)
Definition holders (p : N) (hs : gmap N N) : nat :=
  size (filter (λ kv : N * N, kv.2 = p) hs).

(** Every non-null handle points to a live object, and every live object's
    counter is the number of handles that point to it. *)
Definition counted (s : state) : Prop :=
  (∀ h p, handles s !! h = Some p → p ≠ nullptr → is_Some (objs s !! p)) ∧
  (∀ p o, p ≠ nullptr → objs s !! p = Some o →
          counter o = Z.of_nat (holders p (handles s))).

(** The operations that take and give references in pairs: everything but
    adoption without [add_ref] and [detach]. *)
Definition counting (o : op) : bool :=
  match o with
  | CtorPtr _ _ add_ref => add_ref
  | ResetPtrAddRef _ _ add_ref => add_ref
  | Detach _ => false
  | _ => true
  end.

Definition alive (h : N) (s : state) : Prop := is_Some (handles s !! h).

Definition unused (h : N) (s : state) : Prop := handles s !! h = None.

Definition null_or_live (p : N) (s : state) : Prop :=
  p = nullptr ∨ is_Some (objs s !! p).

(** What an operation needs of its arguments: storage for a new handle is
    unused, handles it is called with are alive, a raw pointer is null or
    points to a live object. *)
Definition enabled (o : op) (s : state) : Prop :=
  match o with
  | CtorDefault h => unused h s
  | CtorPtr h p _ => unused h s ∧ null_or_live p s
  | CtorCopy h r | CtorMove h r => unused h s ∧ alive r s
  | AssignCopy h r | AssignCopyConv h r | AssignMove h r | AssignMoveConv h r
  | Swap h r => alive h s ∧ alive r s
  | AssignPtr h p | ResetPtr h p | ResetPtrAddRef h p _ => alive h s ∧ null_or_live p s
  | Reset h | Detach h | Dtor h => alive h s
  end.

(** [m], run from a counted state with at most [n] handles, ends if it ends
    in a counted state with at most [n'] handles. *)
Definition keeps_count {A} (n : nat) (m : M A) (n' : nat) : Prop :=
  ∀ s a s', m s = Some (a, s') →
            counted s → (size (handles s) ≤ n)%nat →
            counted s' ∧ (size (handles s') ≤ n')%nat.

(** * Properties *)

(** ** Stepping lemmas for the primitives *)

Lemma obj_at_Some p s o : obj_at p s = Some o → p ≠ nullptr ∧ objs s !! p = Some o.
Proof.
  unfold obj_at, is_null. destruct (N.eqb_spec p nullptr); [done | auto].
Qed.

Lemma obj_at_lookup p s : p ≠ nullptr → obj_at p s = objs s !! p.
Proof.
  unfold obj_at, is_null. by destruct (N.eqb_spec p nullptr).
Qed.

Lemma inc_step p s o :
  obj_at p s = Some o →
  inc p s = Some (tt, State (<[p := {| counter := wrap (counter o + 1) |}]> (objs s))
                            (handles s) (trace s ++ [EvInc p])).
Proof.
  intros H. unfold inc, bind, read_counter, write_counter, log. by rewrite !H.
Qed.

Lemma dec_step p s o :
  obj_at p s = Some o →
  dec p s = Some (counter o,
                  State (<[p := {| counter := wrap (counter o - 1) |}]> (objs s))
                        (handles s) (trace s ++ [EvDec p (counter o)])).
Proof.
  intros H. unfold dec, bind, read_counter, write_counter, log, ret. by rewrite !H.
Qed.

Lemma release_step p s o :
  obj_at p s = Some o →
  intrusive_ptr_release p s =
  Some (tt, if counter o =? 1
            then State (delete p (objs s)) (handles s)
                       (trace s ++ [EvDec p (counter o); EvDelete p])
            else State (<[p := {| counter := wrap (counter o - 1) |}]> (objs s))
                       (handles s) (trace s ++ [EvDec p (counter o)])).
Proof.
  intros H. destruct (obj_at_Some _ _ _ H) as [Hp Ho].
  unfold intrusive_ptr_release, bind. rewrite (dec_step _ _ _ H).
  destruct (counter o =? 1); [| done].
  unfold delete_obj. rewrite obj_at_lookup by done. simpl.
  rewrite lookup_insert_eq, delete_insert_eq, <- app_assoc. done.
Qed.

Lemma state_eta s : State (objs s) (handles s) (trace s) = s.
Proof. by destruct s. Qed.

(** ** The protocol operations *)

(** C1: [intrusive_ptr_release p] on a live object first runs [dec], which
    returns the value the counter had before; the object is deleted exactly
    when that value is 1, and otherwise stays alive with the decremented
    (wrapped) count.  Handles are not touched. *)
Theorem release_destroys_iff_pre_is_one (p : N) (s : state) (o : intrusive_ref_counter) :
  obj_at p s = Some o →
  ∃ s', intrusive_ptr_release p s = Some (tt, s') ∧
        handles s' = handles s ∧
        (counter o = 1 →
           trace s' = trace s ++ [EvDec p 1; EvDelete p] ∧
           objs s' = delete p (objs s)) ∧
        (counter o ≠ 1 →
           trace s' = trace s ++ [EvDec p (counter o)] ∧
           objs s' = <[p := {| counter := wrap (counter o - 1) |}]> (objs s) ∧
           use_count p s' = Some (wrap (counter o - 1), s')) ∧
        (obj_at p s' = None ↔ counter o = 1) ∧
        (deletions p (trace s') = (deletions p (trace s) + 1)%nat ↔ counter o = 1).
Proof.
  intros H. destruct (obj_at_Some _ _ _ H) as [Hp Ho].
  eexists. split; [apply (release_step _ _ _ H) |].
  destruct (Z.eqb_spec (counter o) 1) as [E | E]; simpl.
  - rewrite E. repeat split; try done.
    + rewrite obj_at_lookup by done. simpl. by rewrite lookup_delete_eq.
    + clear. induction (trace s) as [| [] t IH]; simpl; rewrite ?N.eqb_refl; lia.
  - repeat split; try done.
    + unfold use_count, read_counter. rewrite obj_at_lookup by done. simpl.
      by rewrite lookup_insert_eq.
    + rewrite obj_at_lookup by done. simpl. by rewrite lookup_insert_eq.
    + intros Hd. exfalso. revert Hd. clear.
      induction (trace s) as [| [] t IH]; simpl; lia.
Qed.

Lemma release_destroys_iff_pre_is_one_witness :
  ∃ s', intrusive_ptr_release 5 (State {[5%N := {| counter := 1 |}]} ∅ []) = Some (tt, s') ∧
        obj_at 5 s' = None ∧ trace s' = [EvDec 5 1; EvDelete 5].
Proof.
  destruct (release_destroys_iff_pre_is_one 5
              (State {[5%N := {| counter := 1 |}]} ∅ []) {| counter := 1 |})
    as (s' & Hrun & _ & Hone & _ & Hiff & _); [reflexivity |].
  exists s'. split; [exact Hrun |]. split.
  - apply Hiff. reflexivity.
  - apply Hone. reflexivity.
Defined.

(** C10: released at count 0, the object is not deleted and its counter
    wraps to the largest value of [unsigned int]. *)
Theorem release_at_zero_wraps (p : N) (s : state) (o : intrusive_ref_counter) :
  obj_at p s = Some o →
  counter o = 0 →
  ∃ s', intrusive_ptr_release p s = Some (tt, s') ∧
        use_count p s' = Some (4294967295, s') ∧
        stored_max = 4294967295 ∧
        trace s' = trace s ++ [EvDec p 0] ∧
        deletions p (trace s') = deletions p (trace s).
Proof.
  intros H Hz. destruct (obj_at_Some _ _ _ H) as [Hp Ho].
  eexists. split; [apply (release_step _ _ _ H) |].
  rewrite Hz. simpl. repeat split.
  - unfold use_count, read_counter. rewrite obj_at_lookup by done. simpl.
    by rewrite lookup_insert_eq.
  - clear. induction (trace s) as [| [] t IH]; simpl; lia.
Qed.

Lemma release_at_zero_wraps_witness :
  ∃ s', intrusive_ptr_release 5 (State {[5%N := counter_default]} ∅ []) = Some (tt, s') ∧
        use_count 5 s' = Some (4294967295, s').
Proof.
  destruct (release_at_zero_wraps 5 (State {[5%N := counter_default]} ∅ []) counter_default)
    as (s' & Hrun & Hc & _); [reflexivity | reflexivity |].
  exists s'. split; [exact Hrun | exact Hc].
Defined.

(** A freshly constructed object adopted without an increment and then
    dropped: the handle's destructor releases at count 0. *)
Example adopted_at_zero_then_destroyed :
  (new_obj 5 ;; ctor_ptr 1 5 false ;; dtor 1 ;; use_count 5) (State ∅ ∅ []) =
  Some (4294967295,
        State {[5%N := {| counter := 4294967295 |}]} ∅ [EvDec 5 0]).
Proof. vm_compute. reflexivity. Qed.

(** ** The counter mixin's special members *)

(** C3: the count is 0 after default construction and after copy
    construction (whatever the source's count is, and the source keeps it);
    copy assignment of the mixin changes nothing, on either side. *)
Theorem mixin_construction_and_assignment (a src : N) (s : state) (o : intrusive_ref_counter) :
  a ≠ nullptr →
  objs s !! a = None →
  obj_at src s = Some o →
  counter counter_default = 0 ∧
  counter (counter_copy o) = 0 ∧
  (∃ s1, new_obj a s = Some (tt, s1) ∧ use_count a s1 = Some (0, s1)) ∧
  (∃ s2, copy_obj a src s = Some (tt, s2) ∧
         use_count a s2 = Some (0, s2) ∧
         use_count src s2 = Some (counter o, s2)) ∧
  (∀ b ob, obj_at b s = Some ob →
           counter_assign ob o = ob ∧
           assign_obj b src s = Some (tt, s) ∧
           use_count b s = Some (counter ob, s) ∧
           use_count src s = Some (counter o, s)).
Proof.
  intros Ha Hfree Hsrc. destruct (obj_at_Some _ _ _ Hsrc) as [Hs Ho].
  assert (Hne : src ≠ a) by (intros ->; congruence).
  assert (Hnull : is_null a = false) by (unfold is_null; by apply N.eqb_neq).
  split; [done |]. split; [done |]. split; [| split].
  - eexists. split.
    + unfold new_obj. rewrite Hnull, Hfree. reflexivity.
    + unfold use_count, read_counter. rewrite obj_at_lookup by done. simpl.
      by rewrite lookup_insert_eq.
  - eexists. split.
    + unfold copy_obj. rewrite Hnull, Hfree, Hsrc. reflexivity.
    + unfold use_count, read_counter. rewrite !obj_at_lookup by done. simpl.
      rewrite lookup_insert_eq, lookup_insert_ne, Ho by done. done.
  - intros b ob Hb. destruct (obj_at_Some _ _ _ Hb) as [Hbn Hbo].
    split; [done |]. split; [| split].
    + unfold assign_obj. rewrite Hb, Hsrc. unfold counter_assign.
      rewrite insert_id by done. by rewrite state_eta.
    + unfold use_count, read_counter. by rewrite Hb.
    + unfold use_count, read_counter. by rewrite Hsrc.
Qed.

Lemma mixin_construction_and_assignment_witness :
  ∃ s2, copy_obj 6 5 (State {[5%N := {| counter := 3 |}]} ∅ []) = Some (tt, s2) ∧
        use_count 6 s2 = Some (0, s2) ∧
        use_count 5 s2 = Some (3, s2).
Proof.
  destruct (mixin_construction_and_assignment 6 5
              (State {[5%N := {| counter := 3 |}]} ∅ []) {| counter := 3 |})
    as (_ & _ & _ & H & _); [done | reflexivity | reflexivity |].
  exact H.
Defined.

(** ** Stepping lemmas for handle storage *)

Lemma is_null_false p : p ≠ nullptr → is_null p = false.
Proof. intros H. unfold is_null. by apply N.eqb_neq. Qed.

Lemma is_null_true p : is_null p = true → p = nullptr.
Proof. unfold is_null. by intros H%N.eqb_eq. Qed.

Lemma load_ptr_step h p s : handles s !! h = Some p → load_ptr h s = Some (p, s).
Proof. intros H. unfold load_ptr. by rewrite H. Qed.

Lemma store_ptr_step h p q s :
  handles s !! h = Some q →
  store_ptr h p s = Some (tt, State (objs s) (<[h := p]> (handles s)) (trace s)).
Proof. intros H. unfold store_ptr. by rewrite H. Qed.

Lemma alloc_handle_step h p s :
  handles s !! h = None →
  alloc_handle h p s = Some (tt, State (objs s) (<[h := p]> (handles s)) (trace s)).
Proof. intros H. unfold alloc_handle. by rewrite H. Qed.

Lemma free_handle_step h q s :
  handles s !! h = Some q →
  free_handle h s = Some (tt, State (objs s) (delete h (handles s)) (trace s)).
Proof. intros H. unfold free_handle. by rewrite H. Qed.

Ltac msimpl :=
  repeat first [ progress cbn [objs handles trace]
               | rewrite lookup_insert_eq
               | rewrite lookup_delete_eq
               | rewrite lookup_insert_ne by done
               | rewrite lookup_delete_ne by done
               | progress cbv beta iota ].

Lemma temporary_fresh s : handles s !! fresh (dom (handles s)) = None.
Proof. apply not_elem_of_dom, is_fresh. Qed.

(** ** Construction from a raw pointer *)

(** C4: [intrusive_ptr(p, add_ref)] stores [p]; when [add_ref] holds and [p]
    is not null it runs the add-reference operation once, which adds 1 to
    the counter (modulo the counter's range) and so changes it; otherwise no
    counter is touched. *)
Theorem ctor_ptr_adds_ref_iff (h p : N) (add_ref : bool) (s : state) :
  handles s !! h = None →
  (add_ref = true → p ≠ nullptr → is_Some (obj_at p s)) →
  ∃ s', ctor_ptr h p add_ref s = Some (tt, s') ∧
        get h s' = Some (p, s') ∧
        (add_ref = true ∧ p ≠ nullptr →
           ∃ c, use_count p s = Some (c, s) ∧
                trace s' = trace s ++ [EvInc p] ∧
                use_count p s' = Some (wrap (c + 1), s') ∧
                (0 ≤ c < stored_max → wrap (c + 1) = c + 1) ∧
                (0 ≤ c ≤ stored_max → wrap (c + 1) ≠ c)) ∧
        (add_ref = false ∨ p = nullptr →
           trace s' = trace s ∧ objs s' = objs s).
Proof.
  intros Hfree Hlive. unfold ctor_ptr, bind. rewrite (alloc_handle_step _ _ _ Hfree).
  destruct add_ref; simpl.
  - destruct (is_null p) eqn:Hn; simpl.
    + apply is_null_true in Hn. eexists. split; [reflexivity |].
      unfold get, load_ptr. simpl. rewrite lookup_insert_eq.
      split; [done |]. split; [intros [_ ?]; done | done].
    + assert (Hp : p ≠ nullptr) by (intros ->; done).
      destruct (Hlive eq_refl Hp) as [o Ho].
      unfold intrusive_ptr_add_ref. erewrite inc_step by exact Ho.
      eexists. split; [reflexivity |].
      unfold get, load_ptr. simpl. rewrite lookup_insert_eq.
      split; [done |]. split; [| intros [? | ?]; done].
      intros _. exists (counter o). unfold use_count, read_counter.
      rewrite Ho. rewrite obj_at_lookup by done. simpl. rewrite lookup_insert_eq.
      repeat split; try done.
      * intros Hc. unfold wrap. unfold stored_max in Hc. apply Z.mod_small. lia.
      * intros Hc. unfold wrap, stored_max in *.
        assert (Hm : stored_modulus = 4294967296) by reflexivity.
        destruct (Z.eq_dec (counter o) (stored_modulus - 1)) as [E | E].
        -- rewrite E. replace (stored_modulus - 1 + 1) with stored_modulus by lia.
           rewrite Z.mod_same by lia. lia.
        -- rewrite Z.mod_small by lia. lia.
  - eexists. split; [reflexivity |].
    unfold get, load_ptr. simpl. rewrite lookup_insert_eq.
    split; [done |]. split; [intros [? _]; done | done].
Qed.

Lemma ctor_ptr_adds_ref_iff_witness :
  ∃ s', ctor_ptr 1 5 true (State {[5%N := counter_default]} ∅ []) = Some (tt, s') ∧
        get 1 s' = Some (5%N, s') ∧
        use_count 5 s' = Some (1, s').
Proof.
  destruct (ctor_ptr_adds_ref_iff 1 5 true (State {[5%N := counter_default]} ∅ []))
    as (s' & Hrun & Hget & Hadd & _).
  - reflexivity.
  - intros _ _. exists counter_default. reflexivity.
  - assert (Hp : 5%N ≠ nullptr) by discriminate.
    exists s'. split; [exact Hrun |]. split; [exact Hget |].
    destruct (Hadd (conj eq_refl Hp)) as (c & Hc & _ & Hc' & _).
    vm_compute in Hc. injection Hc as <-. exact Hc'.
Defined.

(** ** Move construction *)

(** C5: move construction hands the source's address to the new handle and
    nulls the source; no counter is read or written, so every object's
    [use_count] is what it was. *)
Theorem ctor_move_transfers (h r p : N) (s : state) :
  handles s !! r = Some p →
  handles s !! h = None →
  ∃ s', ctor_move h r s = Some (tt, s') ∧
        get h s' = Some (p, s') ∧
        get r s' = Some (nullptr, s') ∧
        objs s' = objs s ∧
        trace s' = trace s ∧
        (∀ q c, use_count q s = Some (c, s) ↔ use_count q s' = Some (c, s')).
Proof.
  intros Hr Hh. assert (Hne : h ≠ r) by (intros ->; congruence).
  unfold ctor_move, bind. rewrite (load_ptr_step _ _ _ Hr), (alloc_handle_step _ _ _ Hh).
  erewrite store_ptr_step by (simpl; rewrite lookup_insert_ne by done; exact Hr).
  eexists. split; [reflexivity |]. unfold get, load_ptr. simpl.
  rewrite lookup_insert_eq, lookup_insert_ne, lookup_insert_eq by done.
  repeat split; try done.
  - unfold use_count, read_counter, obj_at. simpl.
    destruct (is_null q); [done |]. destruct (objs s !! q); [| done]. congruence.
  - unfold use_count, read_counter, obj_at. simpl.
    destruct (is_null q); [done |]. destruct (objs s !! q); [| done]. congruence.
Qed.

Lemma ctor_move_transfers_witness :
  ∃ s', ctor_move 2 1 (State {[5%N := {| counter := 1 |}]} {[1%N := 5%N]} []) = Some (tt, s') ∧
        get 2 s' = Some (5%N, s') ∧
        get 1 s' = Some (nullptr, s') ∧
        use_count 5 s' = Some (1, s').
Proof.
  destruct (ctor_move_transfers 2 1 5 (State {[5%N := {| counter := 1 |}]} {[1%N := 5%N]} []))
    as (s' & Hrun & Hh & Hr & _ & _ & Hc); [reflexivity | reflexivity |].
  exists s'. repeat split; try assumption. apply Hc. reflexivity.
Defined.

(** ** Self-assignment *)

(** C6: assigning a handle to itself, by copy or by move, is stopped by the
    identity test: the whole state, and with it [get] and every
    [use_count], is what it was. *)
Theorem self_assignment_is_identity (h p : N) (s : state) :
  assign_copy h h s = Some (tt, s) ∧
  assign_move h h s = Some (tt, s) ∧
  (assign_copy h h ;; get h) s = get h s ∧
  (assign_move h h ;; get h) s = get h s ∧
  (assign_copy h h ;; use_count p) s = use_count p s ∧
  (assign_move h h ;; use_count p) s = use_count p s.
Proof.
  unfold assign_copy, assign_move, bind.
  rewrite bool_decide_eq_false_2 by (intros H; by apply H).
  done.
Qed.

(** ** Adopting and detaching *)

(** C7: a handle built from [p] without adding a reference and then
    detached gives back [p] and is left null; the counted objects and the
    log are untouched, so no [inc] and no [dec] ran. *)
Theorem adopt_then_detach (h p : N) (s : state) :
  handles s !! h = None →
  ∃ s', (ctor_ptr h p false ;; detach h) s = Some (p, s') ∧
        get h s' = Some (nullptr, s') ∧
        objs s' = objs s ∧
        trace s' = trace s ∧
        counter_updates (trace s') = counter_updates (trace s).
Proof.
  intros Hfree. unfold ctor_ptr, detach, bind.
  rewrite (alloc_handle_step _ _ _ Hfree). simpl.
  unfold load_ptr, store_ptr, ret. msimpl.
  eexists. split; [reflexivity |]. unfold get, load_ptr. by msimpl.
Qed.

Lemma adopt_then_detach_witness :
  ∃ s', (ctor_ptr 1 5 false ;; detach 1) (State {[5%N := counter_default]} ∅ []) = Some (5%N, s') ∧
        get 1 s' = Some (nullptr, s') ∧
        trace s' = [].
Proof.
  destruct (adopt_then_detach 1 5 (State {[5%N := counter_default]} ∅ []))
    as (s' & Hrun & Hget & _ & Ht & _); [reflexivity |].
  exists s'. repeat split; assumption.
Defined.

(** ** Resetting a handle to the pointer it already holds *)

Lemma wrap_succ_pred c : 0 < c ≤ stored_max → wrap (wrap (c + 1) - 1) = c.
Proof.
  unfold wrap, stored_max. assert (Hm : stored_modulus = 4294967296) by reflexivity.
  intros Hc. destruct (Z.eq_dec c (stored_modulus - 1)) as [E | E].
  - rewrite E. replace (stored_modulus - 1 + 1) with stored_modulus by lia.
    rewrite Z.mod_same by lia. rewrite Hm. reflexivity.
  - rewrite (Z.mod_small (c + 1)) by lia. rewrite Z.mod_small by lia. lia.
Qed.

Lemma wrap_succ_not_one c : 0 < c ≤ stored_max → wrap (c + 1) ≠ 1.
Proof.
  unfold wrap, stored_max. assert (Hm : stored_modulus = 4294967296) by reflexivity.
  intros Hc. destruct (Z.eq_dec c (stored_modulus - 1)) as [E | E].
  - rewrite E. replace (stored_modulus - 1 + 1) with stored_modulus by lia.
    rewrite Z.mod_same by lia. lia.
  - rewrite Z.mod_small by lia. lia.
Qed.

Lemma deletions_app p t u : deletions p (t ++ u) = (deletions p t + deletions p u)%nat.
Proof. induction t as [| [] t IH]; simpl; lia. Qed.

Lemma construct_from_same_pointer (h p : N) (s : state) (o : intrusive_ref_counter) :
  handles s !! h = Some p →
  obj_at p s = Some o →
  0 < counter o ≤ stored_max →
  construct_and_swap (λ t, ctor_ptr t p true) h s =
  Some (tt, State (objs s) (handles s)
                  (trace s ++ [EvInc p; EvDec p (wrap (counter o + 1))])).
Proof.
  intros Hh Ho Hc. destruct (obj_at_Some _ _ _ Ho) as [Hp Hop].
  pose proof (temporary_fresh s) as Ht.
  unfold construct_and_swap, temporary, bind.
  set (t := fresh (dom (handles s))) in *.
  assert (Hne : t ≠ h) by (intros E; rewrite E in Ht; congruence).
  unfold ctor_ptr, bind. rewrite (alloc_handle_step _ _ _ Ht).
  rewrite (is_null_false _ Hp). cbn [andb negb].
  unfold intrusive_ptr_add_ref. erewrite inc_step by exact Ho.
  unfold swap, bind, load_ptr, store_ptr. repeat (msimpl; rewrite ?Hh).
  unfold dtor, bind, load_ptr. msimpl. rewrite (is_null_false _ Hp). cbn [negb].
  erewrite release_step by (rewrite obj_at_lookup by done; msimpl; reflexivity).
  cbn [counter]. destruct (Z.eqb_spec (wrap (counter o + 1)) 1) as [E | E].
  { by apply wrap_succ_not_one in E. }
  unfold free_handle. msimpl. do 2 f_equal. f_equal.
  - rewrite insert_insert_eq, wrap_succ_pred by done.
    apply insert_id. by destruct o.
  - apply map_eq. intros i. destruct (decide (i = t)) as [-> | Hit].
    + by rewrite lookup_delete_eq.
    + rewrite lookup_delete_ne, lookup_insert_ne by done.
      destruct (decide (i = h)) as [-> | Hih].
      * by rewrite lookup_insert_eq.
      * by rewrite !lookup_insert_ne by done.
  - by rewrite <- !app_assoc.
Qed.

(** C9: when [h] holds the non-null [p] and the object's count is positive,
    [h.reset(p)] and [h = p] leave [get], [use_count] and the whole set of
    handles and objects as they were and delete nothing: the temporary's
    [inc] comes first, so the [dec] that follows does not return 1. *)
Theorem reset_to_held_pointer (h p : N) (s : state) (o : intrusive_ref_counter) :
  handles s !! h = Some p →
  obj_at p s = Some o →
  0 < counter o ≤ stored_max →
  ∃ s', reset_ptr h p s = Some (tt, s') ∧
        assign_ptr h p s = Some (tt, s') ∧
        get h s' = Some (p, s') ∧
        use_count p s' = Some (counter o, s') ∧
        objs s' = objs s ∧
        handles s' = handles s ∧
        trace s' = trace s ++ [EvInc p; EvDec p (wrap (counter o + 1))] ∧
        wrap (counter o + 1) ≠ 1 ∧
        deletions p (trace s') = deletions p (trace s).
Proof.
  intros Hh Ho Hc. eexists.
  split; [apply (construct_from_same_pointer _ _ _ _ Hh Ho Hc) |].
  split; [apply (construct_from_same_pointer _ _ _ _ Hh Ho Hc) |].
  unfold get, use_count, read_counter, load_ptr, obj_at in *. cbn [objs handles trace].
  rewrite Hh. destruct (is_null p); [done |]. rewrite Ho.
  repeat split; try done.
  - by apply wrap_succ_not_one.
  - rewrite deletions_app. simpl. lia.
Qed.

Lemma reset_to_held_pointer_witness :
  ∃ s', reset_ptr 1 5 (State {[5%N := {| counter := 1 |}]} {[1%N := 5%N]} []) = Some (tt, s') ∧
        get 1 s' = Some (5%N, s') ∧
        use_count 5 s' = Some (1, s') ∧
        trace s' = [EvInc 5; EvDec 5 2].
Proof.
  destruct (reset_to_held_pointer 1 5
              (State {[5%N := {| counter := 1 |}]} {[1%N := 5%N]} []) {| counter := 1 |})
    as (s' & Hrun & _ & Hget & Hc & _ & _ & Ht & _).
  - reflexivity.
  - reflexivity.
  - vm_compute. split; [reflexivity | discriminate].
  - exists s'. repeat split; assumption.
Defined.

(** ** Every object is destroyed at most once, by the release that saw 1 *)

Lemma well_released_app t u :
  well_released t = true → well_released (t ++ u) = well_released u.
Proof.
  remember (length t) as n eqn:Hn. revert t Hn.
  induction n as [n IH] using lt_wf_ind. intros t Hn Ht.
  destruct t as [| [q | q pre | q] t]; simpl in *; try done.
  - apply (IH (length t)); [lia | done | done].
  - destruct (pre =? 1).
    + destruct t as [| [q' | q' pre' | q'] t]; simpl in *; try done.
      apply andb_prop in Ht as [-> Ht]. simpl.
      apply (IH (length t)); [lia | done | done].
    + apply (IH (length t)); [lia | done | done].
Qed.

Lemma last_releases_app p t u :
  last_releases p (t ++ u) = (last_releases p t + last_releases p u)%nat.
Proof. induction t as [| [] t IH]; simpl; lia. Qed.

Lemma well_released_counts p t :
  well_released t = true → deletions p t = last_releases p t.
Proof.
  remember (length t) as n eqn:Hn. revert t Hn.
  induction n as [n IH] using lt_wf_ind. intros t Hn Ht.
  destruct t as [| [q | q pre | q] t]; simpl in *; try done.
  - apply (IH (length t)); [lia | done | done].
  - destruct (Z.eqb_spec pre 1) as [-> | Hpre].
    + destruct t as [| [q' | q' pre' | q'] t]; simpl in *; try done.
      apply andb_prop in Ht as [Hq Ht]. apply N.eqb_eq in Hq as ->.
      rewrite andb_true_r. f_equal. apply (IH (length t)); [lia | done | done].
    + rewrite andb_false_r. simpl. apply (IH (length t)); [lia | done | done].
Qed.

Lemma preserves_ret {A} P (a : A) : preserves P (ret a).
Proof. intros s a' s' [= _ <-]. done. Qed.

Lemma preserves_bind {A B} P (m : M A) (k : A → M B) :
  preserves P m → (∀ a, preserves P (k a)) → preserves P (bind m k).
Proof.
  intros Hm Hk s b s' Hrun HP. unfold bind in Hrun.
  destruct (m s) as [[a s1] |] eqn:E; [| done].
  eapply Hk; [exact Hrun |]. eapply Hm; [exact E | exact HP].
Qed.

Lemma preserves_if {A} P (b : bool) (m1 m2 : M A) :
  preserves P m1 → preserves P m2 → preserves P (if b then m1 else m2).
Proof. by destruct b. Qed.

Lemma consistent_frame s hs : consistent s → consistent (State (objs s) hs (trace s)).
Proof. done. Qed.

Lemma preserves_load_ptr h : preserves consistent (load_ptr h).
Proof.
  intros s a s' Hrun. unfold load_ptr in Hrun.
  destruct (handles s !! h); by simplify_eq.
Qed.

Lemma preserves_store_ptr h p : preserves consistent (store_ptr h p).
Proof.
  intros s a s' Hrun. unfold store_ptr in Hrun.
  destruct (handles s !! h); by simplify_eq.
Qed.

Lemma preserves_alloc_handle h p : preserves consistent (alloc_handle h p).
Proof.
  intros s a s' Hrun. unfold alloc_handle in Hrun.
  destruct (handles s !! h); by simplify_eq.
Qed.

Lemma preserves_free_handle h : preserves consistent (free_handle h).
Proof.
  intros s a s' Hrun. unfold free_handle in Hrun.
  destruct (handles s !! h); by simplify_eq.
Qed.

Lemma preserves_temporary : preserves consistent temporary.
Proof. intros s a s' [= _ <-]. done. Qed.

Lemma inc_runs p s a s' : inc p s = Some (a, s') → ∃ o, obj_at p s = Some o.
Proof.
  unfold inc, bind, read_counter. destruct (obj_at p s) as [o |]; [eauto | done].
Qed.

Lemma release_runs p s a s' :
  intrusive_ptr_release p s = Some (a, s') → ∃ o, obj_at p s = Some o.
Proof.
  unfold intrusive_ptr_release, dec, bind, read_counter.
  destruct (obj_at p s) as [o |]; [eauto | done].
Qed.

Lemma preserves_add_ref p : preserves consistent (intrusive_ptr_add_ref p).
Proof.
  intros s a s' Hrun [Hw Hd]. unfold intrusive_ptr_add_ref in Hrun.
  destruct (inc_runs _ _ _ _ Hrun) as [o Ho].
  rewrite (inc_step _ _ _ Ho) in Hrun. simplify_eq.
  destruct (obj_at_Some _ _ _ Ho) as [Hp Hop].
  split; cbn [objs trace].
  - by rewrite well_released_app.
  - intros q. rewrite deletions_app. simpl. rewrite Nat.add_0_r.
    destruct (Hd q) as [H0 | [H1 Hq]]; [by left | right].
    split; [done |]. rewrite lookup_insert_ne; [done | congruence].
Qed.

Lemma preserves_release p : preserves consistent (intrusive_ptr_release p).
Proof.
  intros s a s' Hrun [Hw Hd].
  destruct (release_runs _ _ _ _ Hrun) as [o Ho].
  rewrite (release_step _ _ _ Ho) in Hrun. simplify_eq.
  destruct (obj_at_Some _ _ _ Ho) as [Hp Hop].
  destruct (Z.eqb_spec (counter o) 1) as [E | E]; split; cbn [objs trace].
  - rewrite well_released_app by done. rewrite E. simpl. by rewrite N.eqb_refl.
  - intros q. rewrite deletions_app. simpl. rewrite Nat.add_0_r.
    destruct (N.eqb_spec p q) as [<- | Hpq].
    + right. rewrite lookup_delete_eq. split; [| done].
      destruct (Hd p) as [H0 | [_ Hq]]; [lia | congruence].
    + rewrite Nat.add_0_r, lookup_delete_ne by done. apply Hd.
  - rewrite well_released_app by done. simpl.
    destruct (Z.eqb_spec (counter o) 1); done.
  - intros q. rewrite deletions_app. simpl. rewrite Nat.add_0_r.
    destruct (Hd q) as [H0 | [H1 Hq]]; [by left | right].
    split; [done |]. rewrite lookup_insert_ne; [done | congruence].
Qed.

Create HintDb preserves.
#[local] Hint Resolve preserves_ret preserves_load_ptr preserves_store_ptr
  preserves_alloc_handle preserves_free_handle preserves_temporary
  preserves_add_ref preserves_release : preserves.

Ltac preserve :=
  repeat first
    [ solve [auto with preserves]
    | apply preserves_if
    | apply preserves_bind; [| intros ?] ].

Lemma preserves_run_op o : preserves consistent (run_op o).
Proof.
  destruct o; simpl;
    unfold assign_copy, assign_copy_conv, assign_ptr, assign_move, assign_move_conv,
      reset, reset_ptr, reset_ptr_add_ref, construct_and_swap,
      ctor_default, ctor_ptr, ctor_copy, ctor_move, dtor, swap, detach;
    preserve.
Qed.

Lemma preserves_run_ops os : preserves consistent (run_ops os).
Proof.
  induction os as [| o os IH]; simpl.
  - apply preserves_ret.
  - apply preserves_bind; [apply preserves_run_op | intros _; exact IH].
Qed.

(** C2: along any sequence of handle operations that runs to completion
    from a state with an empty log, every deletion of an object comes
    directly after a [dec] of it that returned 1 and every such [dec] is
    followed by the deletion; so the number of times an object is destroyed
    is the number of releases that saw 1, it is at most one, and a destroyed
    object is no longer alive. *)
Theorem destroyed_at_most_once (os : list op) (s s' : state) :
  trace s = [] →
  run_ops os s = Some (tt, s') →
  well_released (trace s') = true ∧
  ∀ p, deletions p (trace s') = last_releases p (trace s') ∧
       (deletions p (trace s') ≤ 1)%nat ∧
       (deletions p (trace s') = 1%nat → obj_at p s' = None).
Proof.
  intros Ht Hrun.
  assert (Hc : consistent s) by (split; rewrite Ht; [done | by left]).
  destruct (preserves_run_ops os _ _ _ Hrun Hc) as [Hw Hd].
  split; [exact Hw |]. intros p. split; [by apply well_released_counts |].
  destruct (Hd p) as [H0 | [H1 Hp]].
  - rewrite H0. split; [lia | done].
  - rewrite H1. split; [lia |]. intros _. unfold obj_at. by destruct (is_null p).
Qed.

Lemma destroyed_at_most_once_witness :
  ∃ s', run_ops [CtorPtr 1 5 true; CtorCopy 2 1; CtorMove 3 2; Dtor 3; Dtor 1]
                (State {[5%N := counter_default]} ∅ []) = Some (tt, s') ∧
        trace s' = [EvInc 5; EvInc 5; EvDec 5 2; EvDec 5 1; EvDelete 5] ∧
        deletions 5 (trace s') = last_releases 5 (trace s') ∧
        (deletions 5 (trace s') ≤ 1)%nat.
Proof.
  exists (State ∅ {[2%N := nullptr]} [EvInc 5; EvInc 5; EvDec 5 2; EvDec 5 1; EvDelete 5]).
  assert (Hrun : run_ops [CtorPtr 1 5 true; CtorCopy 2 1; CtorMove 3 2; Dtor 3; Dtor 1]
                   (State {[5%N := counter_default]} ∅ []) =
                 Some (tt, State ∅ {[2%N := nullptr]}
                                 [EvInc 5; EvInc 5; EvDec 5 2; EvDec 5 1; EvDelete 5]))
    by (vm_compute; reflexivity).
  split; [exact Hrun |]. split; [reflexivity |].
  destruct (destroyed_at_most_once _ (State {[5%N := counter_default]} ∅ []) _
              eq_refl Hrun) as [_ Hp].
  destruct (Hp 5%N) as (Heq & Hle & _). split; [exact Heq | exact Hle].
Defined.

(** ** Counting copies *)

Lemma ctor_copy_step h r p s o :
  handles s !! r = Some p →
  handles s !! h = None →
  obj_at p s = Some o →
  ctor_copy h r s =
  Some (tt, State (<[p := {| counter := wrap (counter o + 1) |}]> (objs s))
                  (<[h := p]> (handles s)) (trace s ++ [EvInc p])).
Proof.
  intros Hr Hh Ho. destruct (obj_at_Some _ _ _ Ho) as [Hp _].
  unfold ctor_copy, bind.
  rewrite (load_ptr_step _ _ _ Hr), (alloc_handle_step _ _ _ Hh), (is_null_false _ Hp).
  cbn [negb]. unfold intrusive_ptr_add_ref. by erewrite inc_step by exact Ho.
Qed.

Lemma dtor_step h p s o :
  handles s !! h = Some p →
  obj_at p s = Some o →
  counter o ≠ 1 →
  dtor h s =
  Some (tt, State (<[p := {| counter := wrap (counter o - 1) |}]> (objs s))
                  (delete h (handles s)) (trace s ++ [EvDec p (counter o)])).
Proof.
  intros Hh Ho Hc. destruct (obj_at_Some _ _ _ Ho) as [Hp _].
  unfold dtor, bind. rewrite (load_ptr_step _ _ _ Hh), (is_null_false _ Hp).
  cbn [negb]. rewrite (release_step _ _ _ Ho).
  destruct (Z.eqb_spec (counter o) 1); [done |].
  unfold free_handle. msimpl. by rewrite Hh.
Qed.

Lemma reset_step h p s o :
  handles s !! h = Some p →
  obj_at p s = Some o →
  counter o ≠ 1 →
  reset h s =
  Some (tt, State (<[p := {| counter := wrap (counter o - 1) |}]> (objs s))
                  (<[h := nullptr]> (handles s)) (trace s ++ [EvDec p (counter o)])).
Proof.
  intros Hh Ho Hc. destruct (obj_at_Some _ _ _ Ho) as [Hp _].
  pose proof (temporary_fresh s) as Ht.
  unfold reset, construct_and_swap, temporary, bind.
  set (t := fresh (dom (handles s))) in *.
  assert (Hne : t ≠ h) by (intros E; rewrite E in Ht; congruence).
  unfold ctor_default. rewrite (alloc_handle_step _ _ _ Ht).
  unfold swap, bind, load_ptr, store_ptr. repeat (msimpl; rewrite ?Hh).
  unfold dtor, bind, load_ptr. msimpl. rewrite (is_null_false _ Hp). cbn [negb].
  erewrite release_step by exact Ho.
  destruct (Z.eqb_spec (counter o) 1); [done |].
  unfold free_handle. msimpl. do 3 f_equal.
  apply map_eq. intros i. destruct (decide (i = t)) as [-> | Hit].
  - rewrite lookup_delete_eq, lookup_insert_ne by done. by rewrite Ht.
  - rewrite lookup_delete_ne, lookup_insert_ne by done.
    destruct (decide (i = h)) as [-> | Hih].
    + by rewrite !lookup_insert_eq.
    + by rewrite !lookup_insert_ne by done.
Qed.

Lemma wrap_small c : 0 ≤ c ≤ stored_max → wrap c = c.
Proof. unfold wrap, stored_max. intros Hc. apply Z.mod_small. lia. Qed.

Lemma wrap_range c : 0 ≤ wrap c ≤ stored_max.
Proof.
  unfold wrap, stored_max.
  assert (0 ≤ c mod stored_modulus < stored_modulus) by (by apply Z.mod_pos_bound). lia.
Qed.

Lemma obj_at_insert p o os hs tr :
  p ≠ nullptr → obj_at p (State (<[p := o]> os) hs tr) = Some o.
Proof. intros Hp. rewrite obj_at_lookup by done. cbn [objs]. by rewrite lookup_insert_eq. Qed.

(** After the copies the counter holds the wrapped sum, whatever their number. *)
Lemma take_copies_count (h0 p : N) (ids : list N) :
  ∀ (s : state) (c : Z),
    NoDup ids →
    (∀ h, h ∈ ids → handles s !! h = None) →
    handles s !! h0 = Some p →
    obj_at p s = Some {| counter := c |} →
    0 ≤ c ≤ stored_max →
    ∃ s1, take_copies h0 ids s = Some (tt, s1) ∧
          obj_at p s1 = Some {| counter := wrap (c + Z.of_nat (length ids)) |} ∧
          trace s1 = trace s ++ replicate (length ids) (EvInc p) ∧
          (∀ h, h ∈ ids → handles s1 !! h = Some p) ∧
          (∀ h, h ∉ ids → handles s1 !! h = handles s !! h).
Proof.
  induction ids as [| h ids IH]; intros s c Hnd Hfresh Hh0 Ho Hc.
  - exists s. split; [done |]. cbn [length replicate]. rewrite Z.add_0_r, wrap_small by done.
    rewrite app_nil_r. repeat split; try done. intros h Hh. by apply elem_of_nil in Hh.
  - apply NoDup_cons in Hnd as [Hnotin Hnd].
    destruct (obj_at_Some _ _ _ Ho) as [Hp _].
    assert (Hhfree : handles s !! h = None) by (apply Hfresh; left).
    assert (Hne : h ≠ h0) by (intros ->; congruence).
    change (take_copies h0 (h :: ids) s)
      with (bind (ctor_copy h h0) (λ _, take_copies h0 ids) s).
    unfold bind. rewrite (ctor_copy_step _ _ _ _ _ Hh0 Hhfree Ho). cbn [counter].
    destruct (IH (State (<[p := {| counter := wrap (c + 1) |}]> (objs s))
                        (<[h := p]> (handles s)) (trace s ++ [EvInc p]))
                 (wrap (c + 1)))
      as (s1 & Hrun & Hcount & Htr & Hin & Hout).
    + done.
    + intros h' Hh'. cbn [handles]. rewrite lookup_insert_ne by (intros ->; done).
      apply Hfresh. by right.
    + cbn [handles]. by rewrite lookup_insert_ne.
    + by apply obj_at_insert.
    + apply wrap_range.
    + exists s1. split; [exact Hrun |]. split; [| split; [| split]].
      * rewrite Hcount. do 2 f_equal. unfold wrap. cbn [length].
        rewrite Zplus_mod_idemp_l. f_equal. lia.
      * rewrite Htr. cbn [trace length replicate]. by rewrite <- app_assoc.
      * intros h' [-> | Hh']%elem_of_cons; [| by apply Hin].
        rewrite Hout by done. cbn [handles]. by rewrite lookup_insert_eq.
      * intros h' Hh'. apply not_elem_of_cons in Hh' as [Hh'1 Hh'2].
        rewrite Hout by done. cbn [handles]. by rewrite lookup_insert_ne.
Qed.

(** Dropping holders one by one while the count stays above the number
    still to drop. *)
Lemma drops_count (p : N) (ds : list drop) :
  ∀ (s : state) (c : Z),
    NoDup (map drop_target ds) →
    (∀ d, d ∈ ds → handles s !! drop_target d = Some p) →
    obj_at p s = Some {| counter := c |} →
    Z.of_nat (length ds) < c ≤ stored_max →
    ∃ s2, run_ops (map drop_op ds) s = Some (tt, s2) ∧
          obj_at p s2 = Some {| counter := c - Z.of_nat (length ds) |} ∧
          deletions p (trace s2) = deletions p (trace s).
Proof.
  induction ds as [| d ds IH]; intros s c Hnd Hheld Ho Hc.
  - exists s. split; [done |]. cbn [length]. by rewrite Z.sub_0_r.
  - cbn [map] in Hnd. apply NoDup_cons in Hnd as [Hnotin Hnd].
    destruct (obj_at_Some _ _ _ Ho) as [Hp _].
    cbn [length] in Hc.
    assert (Hd : handles s !! drop_target d = Some p) by (apply Hheld; left).
    assert (Hc1 : counter {| counter := c |} ≠ 1) by (cbn [counter]; lia).
    assert (Hother : ∀ d', d' ∈ ds → drop_target d' ≠ drop_target d).
    { intros d' Hd' E. apply Hnotin. rewrite <- E. by apply list_elem_of_fmap_2. }
    cbn [map run_ops]. unfold bind.
    assert (∃ hs, run_op (drop_op d) s =
                  Some (tt, State (<[p := {| counter := c - 1 |}]> (objs s)) hs
                                  (trace s ++ [EvDec p c])) ∧
                  ∀ d', d' ∈ ds → hs !! drop_target d' = Some p)
      as (hs & -> & Hheld').
    { destruct d as [h | h]; cbn [drop_op run_op drop_target] in *.
      - rewrite (dtor_step _ _ _ _ Hd Ho Hc1). cbn [counter].
        rewrite wrap_small by lia. eexists. split; [done |].
        intros d' Hd'. rewrite lookup_delete_ne by (intros E; by apply (Hother d')).
        apply Hheld. by right.
      - rewrite (reset_step _ _ _ _ Hd Ho Hc1). cbn [counter].
        rewrite wrap_small by lia. eexists. split; [done |].
        intros d' Hd'. rewrite lookup_insert_ne by (intros E; by apply (Hother d')).
        apply Hheld. by right. }
    destruct (IH (State (<[p := {| counter := c - 1 |}]> (objs s)) hs
                        (trace s ++ [EvDec p c])) (c - 1))
      as (s2 & Hrun & Hcount & Hdel).
    + done.
    + exact Hheld'.
    + by apply obj_at_insert.
    + lia.
    + exists s2. split; [exact Hrun |]. split.
      * rewrite Hcount. do 2 f_equal. cbn [length]. lia.
      * rewrite Hdel. cbn [trace]. rewrite deletions_app. simpl. lia.
Qed.

(** C8, with the counter's range taken into account: from a single handle
    on a non-null object of count 1, [N] copies with [N + 1] within the range
    of [unsigned int] bring [use_count] to [N + 1]; destroying or resetting
    any [k] distinct copies afterwards brings it to [N + 1 - k], and the
    object is not destroyed. *)
Theorem copies_count_within_range (h0 p : N) (ids : list N) (s : state) :
  handles s !! h0 = Some p →
  obj_at p s = Some {| counter := 1 |} →
  NoDup ids →
  (∀ h, h ∈ ids → handles s !! h = None) →
  Z.of_nat (length ids) + 1 ≤ stored_max →
  ∃ s1, take_copies h0 ids s = Some (tt, s1) ∧
        use_count p s1 = Some (Z.of_nat (length ids) + 1, s1) ∧
        ∀ ds, NoDup (map drop_target ds) →
              (∀ d, d ∈ ds → drop_target d ∈ ids) →
              ∃ s2, run_ops (map drop_op ds) s1 = Some (tt, s2) ∧
                    use_count p s2 =
                      Some (Z.of_nat (length ids) + 1 - Z.of_nat (length ds), s2) ∧
                    deletions p (trace s2) = deletions p (trace s).
Proof.
  intros Hh0 Ho Hnd Hfresh Hrange.
  destruct (take_copies_count h0 p ids s 1 Hnd Hfresh Hh0 Ho)
    as (s1 & Hrun & Hcount & Htr & Hin & _).
  { unfold stored_max. split; [lia | done]. }
  rewrite wrap_small in Hcount by lia.
  exists s1. split; [exact Hrun |]. split.
  { unfold use_count, read_counter. rewrite Hcount. cbn [counter]. do 2 f_equal. lia. }
  intros ds Hnd' Hsub.
  assert (Hlen : (length ds ≤ length ids)%nat).
  { rewrite <- (length_fmap drop_target ds). apply submseteq_length.
    apply NoDup_submseteq; [done |]. intros h (d & -> & Hd)%list_elem_of_fmap. by apply Hsub. }
  destruct (drops_count p ds s1 (1 + Z.of_nat (length ids)) Hnd')
    as (s2 & Hrun2 & Hcount2 & Hdel).
  - intros d Hd. apply Hin. by apply Hsub.
  - exact Hcount.
  - lia.
  - exists s2. split; [exact Hrun2 |]. split.
    + unfold use_count, read_counter. rewrite Hcount2. cbn [counter]. do 2 f_equal. lia.
    + rewrite Hdel, Htr, deletions_app.
      assert (deletions p (replicate (length ids) (EvInc p)) = O) as ->; [| lia].
      clear. induction (length ids) as [| n IH]; [done | exact IH].
Qed.

Lemma copies_count_within_range_witness :
  ∃ s1, take_copies 1 [2; 3]%N (State {[5%N := {| counter := 1 |}]} {[1%N := 5%N]} [])
          = Some (tt, s1) ∧
        use_count 5 s1 = Some (3, s1) ∧
        ∃ s2, run_ops [Dtor 2; Reset 3] s1 = Some (tt, s2) ∧
              use_count 5 s2 = Some (1, s2).
Proof.
  destruct (copies_count_within_range 1 5 [2; 3]%N
              (State {[5%N := {| counter := 1 |}]} {[1%N := 5%N]} []))
    as (s1 & Hrun & Hc & Hdrops).
  - reflexivity.
  - reflexivity.
  - apply NoDup_cons. split; [| apply NoDup_singleton].
    intros E%list_elem_of_singleton. discriminate E.
  - intros h Hh. apply elem_of_cons in Hh as [-> | Hh]; [reflexivity |].
    apply elem_of_cons in Hh as [-> | Hh]; [reflexivity |].
    by apply elem_of_nil in Hh.
  - vm_compute. discriminate.
  - exists s1. split; [exact Hrun |]. split; [exact Hc |].
    destruct (Hdrops [Destroyed 2; Emptied 3]) as (s2 & Hrun2 & Hc2 & _).
    + cbn [map drop_target]. apply NoDup_cons. split; [| apply NoDup_singleton].
      intros E%list_elem_of_singleton. discriminate E.
    + intros d Hd. apply elem_of_cons in Hd as [-> | Hd]; [left |].
      apply elem_of_cons in Hd as [-> | Hd]; [right; left |].
      by apply elem_of_nil in Hd.
    + exists s2. split; [exact Hrun2 | exact Hc2].
Defined.

(** With one copy for every value of the counter but one, the count wraps. *)
Lemma copies_overflow_at (n : nat) :
  Z.of_nat n = 4294967295 →
  ∃ s1, take_copies 1 (N.of_nat <$> seq 2 n)
          (State {[5%N := {| counter := 1 |}]} {[1%N := 5%N]} []) = Some (tt, s1) ∧
        length (N.of_nat <$> seq 2 n) = n ∧
        use_count 5 s1 = Some (0, s1) ∧
        use_count 5 s1 ≠ Some (Z.of_nat n + 1, s1).
Proof.
  intros Hn.
  destruct (take_copies_count 1 5 (N.of_nat <$> seq 2 n)
              (State {[5%N := {| counter := 1 |}]} {[1%N := 5%N]} []) 1)
    as (s1 & Hrun & Hc & _).
  - apply NoDup_fmap_2; [apply _ | apply NoDup_seq].
  - intros h (k & -> & Hk)%list_elem_of_fmap. apply elem_of_seq in Hk.
    cbn [handles]. apply lookup_singleton_ne. lia.
  - reflexivity.
  - reflexivity.
  - unfold stored_max. split; [lia | done].
  - rewrite length_fmap, length_seq, Hn in Hc.
    change (wrap (1 + 4294967295)) with 0 in Hc.
    exists s1. split; [exact Hrun |]. split; [by rewrite length_fmap, length_seq |].
    unfold use_count, read_counter. rewrite Hc. cbn [counter].
    split; [done |]. rewrite Hn. intros [= ?].
Qed.

(** C8 as stated fails at [N = 4294967295]: from one handle on an object of
    count 1, that many copies leave [use_count] at 0, not at [N + 1]. *)
Lemma copies_count_overflows :
  ∃ s1, take_copies 1 (N.of_nat <$> seq 2 (Z.to_nat 4294967295))
          (State {[5%N := {| counter := 1 |}]} {[1%N := 5%N]} []) = Some (tt, s1) ∧
        length (N.of_nat <$> seq 2 (Z.to_nat 4294967295)) = Z.to_nat 4294967295 ∧
        use_count 5 s1 = Some (0, s1) ∧
        use_count 5 s1 ≠ Some (Z.of_nat (Z.to_nat 4294967295) + 1, s1).
Proof.
  exact (copies_overflow_at (Z.to_nat 4294967295) (Z2Nat.id 4294967295 ltac:(lia))).
Qed.

(** * Further properties of the handle operations *)

(** ** The protocol operations do not look at handles *)

Lemma obj_at_with_handles p hs s : obj_at p (with_handles hs s) = obj_at p s.
Proof. done. Qed.

Lemma with_handles_id s : with_handles (handles s) s = s.
Proof. by destruct s. Qed.

Lemma with_handles_twice hs hs' s :
  with_handles hs (with_handles hs' s) = with_handles hs s.
Proof. done. Qed.

Lemma inc_undefined p s : obj_at p s = None → inc p s = None.
Proof. intros H. unfold inc, bind, read_counter. by rewrite H. Qed.

Lemma release_undefined p s : obj_at p s = None → intrusive_ptr_release p s = None.
Proof. intros H. unfold intrusive_ptr_release, dec, bind, read_counter. by rewrite H. Qed.

Lemma add_ref_with_handles p hs s :
  intrusive_ptr_add_ref p (with_handles hs s) =
  (λ r, (r.1, with_handles hs r.2)) <$> intrusive_ptr_add_ref p s.
Proof.
  unfold intrusive_ptr_add_ref. destruct (obj_at p s) as [o |] eqn:Ho.
  - rewrite (inc_step _ _ _ Ho).
    by rewrite (inc_step p (with_handles hs s) o) by done.
  - rewrite (inc_undefined _ _ Ho).
    by rewrite (inc_undefined p (with_handles hs s)) by done.
Qed.

Lemma release_with_handles p hs s :
  intrusive_ptr_release p (with_handles hs s) =
  (λ r, (r.1, with_handles hs r.2)) <$> intrusive_ptr_release p s.
Proof.
  destruct (obj_at p s) as [o |] eqn:Ho.
  - rewrite (release_step _ _ _ Ho).
    rewrite (release_step p (with_handles hs s) o) by done.
    by destruct (counter o =? 1).
  - rewrite (release_undefined _ _ Ho).
    by rewrite (release_undefined p (with_handles hs s)) by done.
Qed.

Lemma release_if_set_with_handles q hs s :
  release_if_set q (with_handles hs s) =
  (λ r, (r.1, with_handles hs r.2)) <$> release_if_set q s.
Proof.
  unfold release_if_set. destruct (negb (is_null q)).
  - apply release_with_handles.
  - done.
Qed.

Lemma release_if_set_handles q s a s' :
  release_if_set q s = Some (a, s') → handles s' = handles s ∧ a = tt.
Proof.
  unfold release_if_set. destruct (negb (is_null q)).
  - intros Hrun. destruct (release_runs _ _ _ _ Hrun) as [o Ho].
    rewrite (release_step _ _ _ Ho) in Hrun. simplify_eq.
    by destruct (counter o =? 1).
  - intros [= <- <-]. done.
Qed.

(** The tail of every construct-and-swap: the temporary [t], holding [v],
    trades pointers with [h] and is destroyed. *)
Lemma swap_then_dtor t h v q s :
  handles s !! t = Some v →
  handles s !! h = Some q →
  t ≠ h →
  (swap t h ;; dtor t) s =
  (λ r, (tt, with_handles (<[h := v]> (delete t (handles s))) r.2)) <$> release_if_set q s.
Proof.
  intros Ht Hh Hne.
  unfold swap, dtor, bind, load_ptr, store_ptr. repeat (msimpl; rewrite ?Hh, ?Ht).
  fold (release_if_set q).
  change (State (objs s) (<[t := q]> (<[h := v]> (handles s))) (trace s))
    with (with_handles (<[t := q]> (<[h := v]> (handles s))) s).
  rewrite release_if_set_with_handles.
  destruct (release_if_set q s) as [[[] s2] |]; [| done]. cbn.
  unfold free_handle, with_handles. msimpl. do 3 f_equal.
  by rewrite delete_insert_eq, delete_insert_ne.
Qed.

Lemma temporary_not_alive h q s :
  handles s !! h = Some q → fresh (dom (handles s)) ≠ h.
Proof. intros Hh E. pose proof (temporary_fresh s) as Ht. rewrite E in Ht. congruence. Qed.

Lemma construct_and_swap_step ctor h q v s s1 :
  handles s !! h = Some q →
  ctor (fresh (dom (handles s))) s = Some (tt, s1) →
  handles s1 !! fresh (dom (handles s)) = Some v →
  handles s1 !! h = Some q →
  construct_and_swap ctor h s =
  (λ r, (tt, with_handles (<[h := v]> (delete (fresh (dom (handles s))) (handles s1))) r.2))
    <$> release_if_set q s1.
Proof.
  intros Hh Hctor Ht1 Hh1. pose proof (temporary_not_alive _ _ _ Hh) as Hne.
  unfold construct_and_swap, temporary. unfold bind at 1 2. rewrite Hctor.
  by apply swap_then_dtor.
Qed.

Lemma construct_and_swap_undefined ctor h s :
  ctor (fresh (dom (handles s))) s = None → construct_and_swap ctor h s = None.
Proof.
  intros Hctor. unfold construct_and_swap, temporary. unfold bind at 1 2. by rewrite Hctor.
Qed.

Lemma acquire_with_handles (b : bool) p hs s :
  (if b then intrusive_ptr_add_ref p else ret tt) (with_handles hs s) =
  (λ r, (r.1, with_handles hs r.2)) <$> (if b then intrusive_ptr_add_ref p else ret tt) s.
Proof. destruct b; [apply add_ref_with_handles | done]. Qed.

Lemma acquire_handles (b : bool) p s a s1 :
  (if b then intrusive_ptr_add_ref p else ret tt) s = Some (a, s1) →
  handles s1 = handles s ∧ a = tt.
Proof.
  destruct b.
  - intros Hrun. unfold intrusive_ptr_add_ref in Hrun.
    destruct (inc_runs _ _ _ _ Hrun) as [o Ho].
    rewrite (inc_step _ _ _ Ho) in Hrun. by simplify_eq.
  - by intros [= <- <-].
Qed.

Lemma ctor_ptr_result t p add_ref s :
  handles s !! t = None →
  ctor_ptr t p add_ref s =
  (λ r, (tt, with_handles (<[t := p]> (handles s)) r.2))
    <$> (if add_ref && negb (is_null p) then intrusive_ptr_add_ref p else ret tt) s.
Proof.
  intros Ht. unfold ctor_ptr. unfold bind at 1. rewrite (alloc_handle_step _ _ _ Ht).
  change (State (objs s) (<[t := p]> (handles s)) (trace s))
    with (with_handles (<[t := p]> (handles s)) s).
  rewrite acquire_with_handles.
  by destruct ((if add_ref && negb (is_null p) then intrusive_ptr_add_ref p else ret tt) s)
    as [[[] s1] |].
Qed.

(** ** reset and the raw-pointer assignments, without the temporary *)

(** X1: on a live handle, [reset()] does what [detach()] followed by a
    release of the detached pointer (when it is not null) does. *)
Theorem reset_is_detach_then_release (h : N) (s : state) :
  alive h s →
  reset h s = (let* q := detach h in release_if_set q) s.
Proof.
  intros [q Hh]. pose proof (temporary_fresh s) as Ht.
  pose proof (temporary_not_alive _ _ _ Hh) as Hne.
  unfold reset.
  rewrite (construct_and_swap_step ctor_default h q nullptr s
             (with_handles (<[fresh (dom (handles s)) := nullptr]> (handles s)) s)); cycle 1.
  { done. }
  { unfold ctor_default. by rewrite (alloc_handle_step _ _ _ Ht). }
  { cbn. by rewrite lookup_insert_eq. }
  { cbn. by rewrite lookup_insert_ne. }
  unfold detach, bind. rewrite (load_ptr_step _ _ _ Hh), (store_ptr_step _ _ _ _ Hh).
  unfold ret.
  change (State (objs s) (<[h := nullptr]> (handles s)) (trace s))
    with (with_handles (<[h := nullptr]> (handles s)) s).
  rewrite !release_if_set_with_handles. cbn [handles with_handles].
  rewrite delete_insert_eq, delete_id by done.
  by destruct (release_if_set q s) as [[[] s2] |].
Qed.

Lemma reset_is_detach_then_release_witness :
  reset 1 (State {[5%N := {| counter := 1 |}]} {[1%N := 5%N]} []) =
  Some (tt, State ∅ {[1%N := nullptr]} [EvDec 5 1; EvDelete 5]).
Proof.
  rewrite (reset_is_detach_then_release 1
             (State {[5%N := {| counter := 1 |}]} {[1%N := 5%N]} [])).
  - vm_compute. reflexivity.
  - exists 5%N. reflexivity.
Defined.

(** X2: on a live handle, [reset(p, add_ref)] takes the reference on [p]
    (when asked to and [p] is not null), then stores [p], then releases the
    pointer held before (when it is not null); [reset(p)] and [operator=(T* )]
    are the case [add_ref = true]. *)
Theorem reset_ptr_is_acquire_store_release (h p : N) (add_ref : bool) (s : state) :
  alive h s →
  reset_ptr_add_ref h p add_ref s =
    (let* q := load_ptr h in
     (if add_ref && negb (is_null p) then intrusive_ptr_add_ref p else ret tt) ;;
     store_ptr h p ;;
     release_if_set q) s ∧
  reset_ptr h p s = reset_ptr_add_ref h p true s ∧
  assign_ptr h p s = reset_ptr_add_ref h p true s.
Proof.
  intros [q Hh]. split; [| done].
  pose proof (temporary_fresh s) as Ht.
  pose proof (temporary_not_alive _ _ _ Hh) as Hne.
  unfold reset_ptr_add_ref. unfold bind at 1. rewrite (load_ptr_step _ _ _ Hh).
  unfold bind at 1.
  destruct ((if add_ref && negb (is_null p) then intrusive_ptr_add_ref p else ret tt) s)
    as [[a s1] |] eqn:Eacq.
  - destruct (acquire_handles _ _ _ _ _ Eacq) as [Hs1 ->].
    rewrite (construct_and_swap_step (λ t, ctor_ptr t p add_ref) h q p s
               (with_handles (<[fresh (dom (handles s)) := p]> (handles s)) s1)); cycle 1.
    { done. }
    { rewrite ctor_ptr_result by done. by rewrite Eacq. }
    { cbn. by rewrite lookup_insert_eq. }
    { cbn. by rewrite lookup_insert_ne. }
    unfold bind. rewrite (store_ptr_step h p q s1) by (by rewrite Hs1). rewrite Hs1.
    change (State (objs s1) (<[h := p]> (handles s)) (trace s1))
      with (with_handles (<[h := p]> (handles s)) s1).
    rewrite !release_if_set_with_handles. cbn [handles with_handles].
    rewrite delete_insert_eq, delete_id by done.
    by destruct (release_if_set q s1) as [[[] s2] |].
  - apply construct_and_swap_undefined. rewrite ctor_ptr_result by done. by rewrite Eacq.
Qed.

Lemma reset_ptr_is_acquire_store_release_witness :
  reset_ptr_add_ref 1 6 true
    (State {[5%N := {| counter := 1 |}; 6%N := counter_default]} {[1%N := 5%N]} []) =
  Some (tt, State {[6%N := {| counter := 1 |}]} {[1%N := 6%N]}
                  [EvInc 6; EvDec 5 1; EvDelete 5]).
Proof.
  destruct (reset_ptr_is_acquire_store_release 1 6 true
              (State {[5%N := {| counter := 1 |}; 6%N := counter_default]} {[1%N := 5%N]} []))
    as [-> _].
  - exists 5%N. reflexivity.
  - vm_compute. reflexivity.
Defined.

(** ** Copy and move assignment between two handles *)

Lemma ctor_copy_result t r p s :
  handles s !! r = Some p →
  handles s !! t = None →
  ctor_copy t r s =
  (λ x, (tt, with_handles (<[t := p]> (handles s)) x.2))
    <$> (if negb (is_null p) then intrusive_ptr_add_ref p else ret tt) s.
Proof.
  intros Hr Ht. unfold ctor_copy. unfold bind at 1. rewrite (load_ptr_step _ _ _ Hr).
  unfold bind at 1. rewrite (alloc_handle_step _ _ _ Ht).
  change (State (objs s) (<[t := p]> (handles s)) (trace s))
    with (with_handles (<[t := p]> (handles s)) s).
  rewrite acquire_with_handles.
  by destruct ((if negb (is_null p) then intrusive_ptr_add_ref p else ret tt) s)
    as [[[] s1] |].
Qed.

Lemma ctor_move_result t r p s :
  handles s !! r = Some p →
  handles s !! t = None →
  ctor_move t r s =
  Some (tt, with_handles (<[r := nullptr]> (<[t := p]> (handles s))) s).
Proof.
  intros Hr Ht. assert (Hne : t ≠ r) by (intros ->; congruence).
  unfold ctor_move, bind. rewrite (load_ptr_step _ _ _ Hr), (alloc_handle_step _ _ _ Ht).
  by erewrite store_ptr_step by (cbn; rewrite lookup_insert_ne by done; exact Hr).
Qed.

Lemma release_if_set_elsewhere q x s a s' :
  release_if_set q s = Some (a, s') → x ≠ q → obj_at x s' = obj_at x s.
Proof.
  unfold release_if_set. destruct (negb (is_null q)).
  - intros Hrun Hx. destruct (release_runs _ _ _ _ Hrun) as [o Ho].
    rewrite (release_step _ _ _ Ho) in Hrun. simplify_eq.
    unfold obj_at. destruct (is_null x); [done |].
    destruct (counter o =? 1); cbn [objs].
    + by rewrite lookup_delete_ne.
    + by rewrite lookup_insert_ne.
  - by intros [= <- <-].
Qed.

(** X3: copy assignment between two different live handles takes a
    reference on the source's pointer (when it is not null), stores it in
    the target, and then releases the pointer the target held (when it is
    not null); the converting overload does the same.  The source handle is
    left as it was. *)
Theorem assign_copy_is_acquire_store_release (h r p q : N) (s : state) :
  h ≠ r →
  handles s !! h = Some q →
  handles s !! r = Some p →
  assign_copy h r s =
    ((if negb (is_null p) then intrusive_ptr_add_ref p else ret tt) ;;
     store_ptr h p ;;
     release_if_set q) s ∧
  assign_copy_conv h r s = assign_copy h r s ∧
  ∀ s', assign_copy h r s = Some (tt, s') → handles s' = <[h := p]> (handles s).
Proof.
  intros Hhr Hh Hr.
  pose proof (temporary_fresh s) as Ht.
  pose proof (temporary_not_alive _ _ _ Hh) as Hne.
  assert (Hconv : assign_copy_conv h r s = assign_copy h r s).
  { unfold assign_copy. by rewrite bool_decide_eq_true_2. }
  split; [| split; [exact Hconv |]].
  - rewrite <- Hconv. unfold assign_copy_conv. unfold bind at 1.
    destruct ((if negb (is_null p) then intrusive_ptr_add_ref p else ret tt) s)
      as [[a s1] |] eqn:Eacq.
    + destruct (acquire_handles _ _ _ _ _ Eacq) as [Hs1 ->].
      rewrite (construct_and_swap_step (λ t, ctor_copy t r) h q p s
                 (with_handles (<[fresh (dom (handles s)) := p]> (handles s)) s1)); cycle 1.
      { done. }
      { rewrite (ctor_copy_result _ _ p) by done. by rewrite Eacq. }
      { cbn. by rewrite lookup_insert_eq. }
      { cbn. by rewrite lookup_insert_ne. }
      unfold bind. rewrite (store_ptr_step h p q s1) by (by rewrite Hs1). rewrite Hs1.
      change (State (objs s1) (<[h := p]> (handles s)) (trace s1))
        with (with_handles (<[h := p]> (handles s)) s1).
      rewrite !release_if_set_with_handles. cbn [handles with_handles].
      rewrite delete_insert_eq, delete_id by done.
      by destruct (release_if_set q s1) as [[[] s2] |].
    + apply construct_and_swap_undefined.
      rewrite (ctor_copy_result _ _ p) by done. by rewrite Eacq.
  - intros s'. rewrite <- Hconv. unfold assign_copy_conv.
    destruct ((if negb (is_null p) then intrusive_ptr_add_ref p else ret tt) s)
      as [[a s1] |] eqn:Eacq.
    + destruct (acquire_handles _ _ _ _ _ Eacq) as [Hs1 ->].
      rewrite (construct_and_swap_step (λ t, ctor_copy t r) h q p s
                 (with_handles (<[fresh (dom (handles s)) := p]> (handles s)) s1)); cycle 1.
      { done. }
      { rewrite (ctor_copy_result _ _ p) by done. by rewrite Eacq. }
      { cbn. by rewrite lookup_insert_eq. }
      { cbn. by rewrite lookup_insert_ne. }
      rewrite release_if_set_with_handles.
      destruct (release_if_set q s1) as [[[] s2] |]; cbn; [| done].
      intros [= <-]. cbn. by rewrite delete_insert_eq, delete_id.
    + rewrite construct_and_swap_undefined; [done |].
      rewrite (ctor_copy_result _ _ p) by done. by rewrite Eacq.
Qed.

Lemma assign_copy_is_acquire_store_release_witness :
  assign_copy 1 2
    (State {[5%N := {| counter := 1 |}; 6%N := {| counter := 1 |}]}
           {[1%N := 5%N; 2%N := 6%N]} []) =
  Some (tt, State {[6%N := {| counter := 2 |}]} {[1%N := 6%N; 2%N := 6%N]}
                  [EvInc 6; EvDec 5 1; EvDelete 5]).
Proof.
  destruct (assign_copy_is_acquire_store_release 1 2 6 5
              (State {[5%N := {| counter := 1 |}; 6%N := {| counter := 1 |}]}
                     {[1%N := 5%N; 2%N := 6%N]} [])) as [-> _].
  - discriminate.
  - reflexivity.
  - reflexivity.
  - vm_compute. reflexivity.
Defined.

(** X4: move assignment between two different live handles nulls the
    source, stores its pointer in the target and releases the pointer the
    target held; no reference is added, so the moved object's counter is
    untouched unless the target already pointed to it.  The converting
    overload does the same. *)
Theorem assign_move_is_store_release (h r p q : N) (s : state) :
  h ≠ r →
  handles s !! h = Some q →
  handles s !! r = Some p →
  assign_move h r s =
    (store_ptr r nullptr ;; store_ptr h p ;; release_if_set q) s ∧
  assign_move_conv h r s = assign_move h r s ∧
  ∀ s', assign_move h r s = Some (tt, s') →
        handles s' = <[h := p]> (<[r := nullptr]> (handles s)) ∧
        (p ≠ q → obj_at p s' = obj_at p s).
Proof.
  intros Hhr Hh Hr.
  pose proof (temporary_fresh s) as Ht.
  pose proof (temporary_not_alive _ _ _ Hh) as Hne.
  pose proof (temporary_not_alive _ _ _ Hr) as Hne'.
  assert (Hconv : assign_move_conv h r s = assign_move h r s).
  { unfold assign_move. by rewrite bool_decide_eq_true_2. }
  assert (Hstep : assign_move_conv h r s =
                  (λ x, (tt, with_handles (<[h := p]> (<[r := nullptr]> (handles s))) x.2))
                    <$> release_if_set q s).
  { unfold assign_move_conv.
    rewrite (construct_and_swap_step (λ t, ctor_move t r) h q p s
               (with_handles (<[r := nullptr]> (<[fresh (dom (handles s)) := p]> (handles s))) s));
      cycle 1.
    { done. }
    { by apply ctor_move_result. }
    { cbn. by rewrite lookup_insert_ne, lookup_insert_eq. }
    { cbn. by rewrite !lookup_insert_ne. }
    rewrite release_if_set_with_handles. cbn [handles with_handles].
    rewrite delete_insert_ne, delete_insert_eq, delete_id by done.
    by destruct (release_if_set q s) as [[[] s2] |]. }
  split; [| split; [exact Hconv |]].
  - rewrite <- Hconv, Hstep. unfold bind.
    rewrite (store_ptr_step r nullptr p s) by done.
    rewrite (store_ptr_step h p q) by (cbn; by rewrite lookup_insert_ne).
    cbn [objs handles trace].
    change (State (objs s) (<[h := p]> (<[r := nullptr]> (handles s))) (trace s))
      with (with_handles (<[h := p]> (<[r := nullptr]> (handles s))) s).
    rewrite release_if_set_with_handles.
    by destruct (release_if_set q s) as [[[] s2] |].
  - intros s'. rewrite <- Hconv, Hstep.
    destruct (release_if_set q s) as [[[] s2] |] eqn:Erel; cbn; [| done].
    intros [= <-]. split; [done |]. intros Hpq.
    rewrite obj_at_with_handles. by apply (release_if_set_elsewhere q p s tt s2).
Qed.

Lemma assign_move_is_store_release_witness :
  assign_move 1 2
    (State {[5%N := {| counter := 1 |}; 6%N := {| counter := 1 |}]}
           {[1%N := 5%N; 2%N := 6%N]} []) =
  Some (tt, State {[6%N := {| counter := 1 |}]} {[1%N := 6%N; 2%N := nullptr]}
                  [EvDec 5 1; EvDelete 5]).
Proof.
  destruct (assign_move_is_store_release 1 2 6 5
              (State {[5%N := {| counter := 1 |}; 6%N := {| counter := 1 |}]}
                     {[1%N := 5%N; 2%N := 6%N]} [])) as [-> _].
  - discriminate.
  - reflexivity.
  - reflexivity.
  - vm_compute. reflexivity.
Defined.

(** ** Move construction, detach and swap *)

(** X5: move construction is [detach()] on the source followed by adoption
    of the detached pointer without [add_ref], on every state. *)
Theorem ctor_move_is_detach_then_adopt (h r : N) (s : state) :
  ctor_move h r s = (let* p := detach r in ctor_ptr h p false) s.
Proof.
  unfold ctor_move, detach, ctor_ptr, bind, load_ptr, store_ptr, alloc_handle, ret.
  destruct (handles s !! r) as [p |] eqn:Hr; [| done]. cbn [handles andb].
  destruct (decide (h = r)) as [-> | Hne].
  - repeat (msimpl; rewrite ?Hr). done.
  - repeat (msimpl; rewrite ?Hr).
    destruct (handles s !! h) as [x |] eqn:Hh; [done |].
    repeat (msimpl; rewrite ?Hr). by rewrite insert_insert_ne.
Qed.

Lemma swap_step a b pa pb s :
  handles s !! a = Some pa →
  handles s !! b = Some pb →
  swap a b s = Some (tt, with_handles (<[a := pb]> (<[b := pa]> (handles s))) s).
Proof.
  intros Ha Hb. unfold swap, bind.
  rewrite (load_ptr_step _ _ _ Hb), (load_ptr_step _ _ _ Ha), (store_ptr_step _ _ _ _ Hb).
  destruct (decide (a = b)) as [-> | Hne].
  - by erewrite store_ptr_step by (cbn; by rewrite lookup_insert_eq).
  - by erewrite store_ptr_step by (cbn; rewrite lookup_insert_ne by done; exact Ha).
Qed.

(** X6: [swap] on two live handles exchanges their pointers and touches no
    object and no counter; swapping twice, or swapping a handle with itself,
    changes nothing; the order of the two arguments does not matter, and the
    free [swap] is the member. *)
Theorem swap_exchanges (a b pa pb : N) (s : state) :
  handles s !! a = Some pa →
  handles s !! b = Some pb →
  swap a b s = Some (tt, with_handles (<[a := pb]> (<[b := pa]> (handles s))) s) ∧
  (swap a b ;; swap a b) s = Some (tt, s) ∧
  swap b a s = swap a b s ∧
  free_swap a b s = swap a b s ∧
  swap a a s = Some (tt, s).
Proof.
  intros Ha Hb.
  pose proof swap_step as Hswap.
  assert (Hback : <[a := pa]> (<[b := pb]> (<[a := pb]> (<[b := pa]> (handles s)))) = handles s).
  { apply map_eq. intros i. destruct (decide (i = a)) as [-> | Hia].
    - by rewrite lookup_insert_eq.
    - rewrite lookup_insert_ne by done. destruct (decide (i = b)) as [-> | Hib].
      + by rewrite lookup_insert_eq.
      + by rewrite !lookup_insert_ne by done. }
  split; [by apply Hswap |]. split; [| split; [| split; [done |]]].
  - unfold bind. rewrite (Hswap a b pa pb s Ha Hb).
    destruct (decide (a = b)) as [-> | Hne].
    + assert (pa = pb) as -> by congruence.
      rewrite (Hswap b b pb pb) by (cbn; by rewrite lookup_insert_eq).
      unfold with_handles. cbn [objs handles trace].
      rewrite !insert_insert_eq, insert_id by done. by rewrite state_eta.
    + rewrite (Hswap a b pb pa); cycle 1.
      { cbn. by rewrite lookup_insert_eq. }
      { cbn. by rewrite lookup_insert_ne, lookup_insert_eq. }
      unfold with_handles. cbn [objs handles trace]. rewrite Hback. by rewrite state_eta.
  - rewrite (Hswap a b pa pb s Ha Hb), (Hswap b a pb pa s Hb Ha).
    destruct (decide (a = b)) as [-> | Hne].
    + assert (pa = pb) as -> by congruence. done.
    + by rewrite insert_insert_ne.
  - rewrite (Hswap a a pa pa s Ha Ha).
    rewrite insert_insert_eq, insert_id by done. by rewrite with_handles_id.
Qed.

Lemma swap_exchanges_witness :
  swap 1 2 (State ∅ {[1%N := 5%N; 2%N := 6%N]} []) =
  Some (tt, State ∅ {[1%N := 6%N; 2%N := 5%N]} []).
Proof.
  destruct (swap_exchanges 1 2 5 6 (State ∅ {[1%N := 5%N; 2%N := 6%N]} []))
    as [-> _]; [reflexivity | reflexivity |].
  vm_compute. reflexivity.
Defined.

(** ** Comparisons and the boolean test *)

(** X7: on live handles the comparison operators only read: [==] tells
    whether the two stored addresses are the same and [!=] is its negation,
    in the handle/handle and both handle/pointer forms; exactly one of
    [a < b], [a == b], [b < a] holds; and [operator bool] is [!= nullptr]. *)
Theorem comparisons_agree (a b x y p : N) (s : state) :
  handles s !! a = Some x →
  handles s !! b = Some y →
  eq_handles a b s = Some (bool_decide (x = y), s) ∧
  ne_handles a b s = Some (negb (bool_decide (x = y)), s) ∧
  eq_handle_ptr a p s = Some (bool_decide (x = p), s) ∧
  eq_ptr_handle p a s = Some (bool_decide (x = p), s) ∧
  ne_handle_ptr a p s = Some (negb (bool_decide (x = p)), s) ∧
  ne_ptr_handle p a s = Some (negb (bool_decide (x = p)), s) ∧
  to_bool a s = ne_handle_ptr a nullptr s ∧
  ∃ lt gt : bool,
    lt_handles a b s = Some (lt, s) ∧
    lt_handles b a s = Some (gt, s) ∧
    ((lt = true ∧ x ≠ y ∧ gt = false) ∨
     (lt = false ∧ x = y ∧ gt = false) ∨
     (lt = false ∧ x ≠ y ∧ gt = true)).
Proof.
  intros Ha Hb.
  unfold eq_handles, ne_handles, eq_handle_ptr, eq_ptr_handle, ne_handle_ptr,
    ne_ptr_handle, lt_handles, to_bool, get, bind, ret, is_null.
  repeat (progress (rewrite ?(load_ptr_step _ _ _ Ha), ?(load_ptr_step _ _ _ Hb));
          cbv beta iota).
  assert (Heq : ∀ u v : N, (u =? v)%N = bool_decide (u = v)).
  { intros u v. destruct (N.eqb_spec u v).
    - by rewrite bool_decide_eq_true_2.
    - by rewrite bool_decide_eq_false_2. }
  rewrite !Heq. rewrite (bool_decide_ext (p = x) (x = p)) by done.
  repeat split; try done.
  exists (x <? y)%N, (y <? x)%N. split; [done |]. split; [done |].
  destruct (N.ltb_spec x y), (N.ltb_spec y x); lia.
Qed.

Lemma comparisons_agree_witness :
  eq_handles 1 2 (State ∅ {[1%N := 5%N; 2%N := 6%N]} []) =
    Some (false, State ∅ {[1%N := 5%N; 2%N := 6%N]} []) ∧
  ne_handles 1 2 (State ∅ {[1%N := 5%N; 2%N := 6%N]} []) =
    Some (true, State ∅ {[1%N := 5%N; 2%N := 6%N]} []).
Proof.
  destruct (comparisons_agree 1 2 5 6 0 (State ∅ {[1%N := 5%N; 2%N := 6%N]} []))
    as (He & Hn & _); [reflexivity | reflexivity |].
  split; [exact He | exact Hn].
Defined.

(** ** Handles per object *)

Lemma holders_insert p h q (hs : gmap N N) :
  (holders p (<[h := q]> hs) + (if decide (hs !! h = Some p) then 1 else 0) =
   holders p hs + (if decide (q = p) then 1 else 0))%nat.
Proof.
  unfold holders. rewrite map_filter_insert. cbn [snd].
  destruct (decide (q = p)) as [-> | Hq].
  - rewrite map_size_insert. destruct (decide (hs !! h = Some p)) as [Hh | Hh].
    + assert (filter (λ kv : N * N, kv.2 = p) hs !! h = Some p) as ->
        by (by apply map_lookup_filter_Some). cbn. lia.
    + assert (filter (λ kv : N * N, kv.2 = p) hs !! h = None) as ->.
      { apply map_lookup_filter_None. right. intros x Hx. cbn. congruence. }
      cbn. lia.
  - rewrite map_filter_delete, map_size_delete.
    destruct (decide (hs !! h = Some p)) as [Hh | Hh].
    + assert (Hf : filter (λ kv : N * N, kv.2 = p) hs !! h = Some p)
        by (by apply map_lookup_filter_Some).
      rewrite Hf. cbn.
      assert (size (filter (λ kv : N * N, kv.2 = p) hs) ≠ O)
        by (by eapply map_size_ne_0_lookup_2). lia.
    + assert (filter (λ kv : N * N, kv.2 = p) hs !! h = None) as ->.
      { apply map_lookup_filter_None. right. intros x Hx. cbn. congruence. }
      cbn. lia.
Qed.

Lemma holders_delete p h (hs : gmap N N) :
  (holders p (delete h hs) + (if decide (hs !! h = Some p) then 1 else 0) =
   holders p hs)%nat.
Proof.
  unfold holders. rewrite map_filter_delete, map_size_delete.
  destruct (decide (hs !! h = Some p)) as [Hh | Hh].
  - assert (Hf : filter (λ kv : N * N, kv.2 = p) hs !! h = Some p)
      by (by apply map_lookup_filter_Some).
    rewrite Hf. cbn.
    assert (size (filter (λ kv : N * N, kv.2 = p) hs) ≠ O)
      by (by eapply map_size_ne_0_lookup_2). lia.
  - assert (filter (λ kv : N * N, kv.2 = p) hs !! h = None) as ->.
    { apply map_lookup_filter_None. right. intros x Hx. cbn. congruence. }
    cbn. lia.
Qed.

Lemma holders_le_size p (hs : gmap N N) : (holders p hs ≤ size hs)%nat.
Proof. unfold holders. apply map_subseteq_size, map_filter_subseteq. Qed.

Lemma holders_pos p h (hs : gmap N N) : hs !! h = Some p → (1 ≤ holders p hs)%nat.
Proof.
  intros Hh. unfold holders.
  assert (Hf : filter (λ kv : N * N, kv.2 = p) hs !! h = Some p)
    by (by apply map_lookup_filter_Some).
  assert (size (filter (λ kv : N * N, kv.2 = p) hs) ≠ O)
    by (by eapply map_size_ne_0_lookup_2). lia.
Qed.

Lemma holders_pos_inv p (hs : gmap N N) :
  (1 ≤ holders p hs)%nat → ∃ h, hs !! h = Some p.
Proof.
  unfold holders. intros Hsz.
  destruct (map_size_ne_0_lookup_1 (filter (λ kv : N * N, kv.2 = p) hs)) as [h [x Hx]];
    [lia |].
  apply map_lookup_filter_Some in Hx as [Hx Hp]. cbn in Hp. subst x. by exists h.
Qed.

(** ** Counted states are kept *)

Lemma counted_rehandle s (hs' : gmap N N) :
  counted s →
  (∀ x, x ≠ nullptr → holders x hs' = holders x (handles s)) →
  counted (with_handles hs' s).
Proof.
  intros [Hlive Hcnt] Hsame. split; cbn [with_handles objs handles].
  - intros h p Hh Hp. apply holders_pos in Hh. rewrite Hsame in Hh by done.
    destruct (holders_pos_inv _ _ Hh) as [h0 Hh0]. by eapply Hlive.
  - intros p o Hp Ho. rewrite Hsame by done. by apply Hcnt.
Qed.

Lemma counted_acquire h p s a s1 :
  counted s →
  handles s !! h = None →
  Z.of_nat (size (handles s)) < stored_max →
  (if negb (is_null p) then intrusive_ptr_add_ref p else ret tt) s = Some (a, s1) →
  counted (with_handles (<[h := p]> (handles s)) s1).
Proof.
  intros Hc Hh Hsz Hrun. destruct (is_null p) eqn:Hnull; cbn [negb] in Hrun.
  - apply is_null_true in Hnull as ->. injection Hrun as <- <-.
    apply counted_rehandle; [done |]. intros x Hx.
    pose proof (holders_insert x h nullptr (handles s)) as Hins.
    rewrite Hh in Hins. destruct (decide (None = Some x)); [done |].
    destruct (decide (nullptr = x)); [congruence | lia].
  - assert (Hp : p ≠ nullptr) by (intros ->; done).
    unfold intrusive_ptr_add_ref in Hrun. destruct (inc_runs _ _ _ _ Hrun) as [o Ho].
    rewrite (inc_step _ _ _ Ho) in Hrun. simplify_eq.
    destruct (obj_at_Some _ _ _ Ho) as [_ Hop]. destruct Hc as [Hlive Hcnt].
    split; cbn [with_handles objs handles].
    + intros h' p' Hh' Hp'. destruct (decide (p' = p)) as [-> | Hne].
      * by rewrite lookup_insert_eq.
      * rewrite lookup_insert_ne by done.
        apply lookup_insert_Some in Hh' as [[_ ->] | [_ Hh']]; [done |]. by eapply Hlive.
    + intros x o' Hx Ho'.
      pose proof (holders_insert x h p (handles s)) as Hins.
      rewrite Hh in Hins. destruct (decide (None = Some x)); [done |].
      destruct (decide (x = p)) as [-> | Hne].
      * rewrite lookup_insert_eq in Ho'. simplify_eq. cbn [counter].
        rewrite (Hcnt p o) by done.
        pose proof (holders_le_size p (handles s)).
        rewrite wrap_small by lia.
        destruct (decide (p = p)); [lia | done].
      * rewrite lookup_insert_ne in Ho' by done. rewrite (Hcnt x o') by done.
        destruct (decide (p = x)); [congruence | f_equal; lia].
Qed.

Lemma counted_drop h q s a s2 :
  counted s →
  handles s !! h = Some q →
  Z.of_nat (size (handles s)) ≤ stored_max →
  release_if_set q s = Some (a, s2) →
  counted (with_handles (delete h (handles s)) s2).
Proof.
  intros Hc Hh Hsz Hrun. unfold release_if_set in Hrun.
  destruct (is_null q) eqn:Hnull; cbn [negb] in Hrun.
  - apply is_null_true in Hnull as ->. injection Hrun as <- <-.
    apply counted_rehandle; [done |]. intros x Hx.
    pose proof (holders_delete x h (handles s)) as Hdel.
    destruct (decide (handles s !! h = Some x)); [congruence | lia].
  - assert (Hq : q ≠ nullptr) by (intros ->; done).
    destruct (release_runs _ _ _ _ Hrun) as [o Ho].
    rewrite (release_step _ _ _ Ho) in Hrun. simplify_eq.
    destruct (obj_at_Some _ _ _ Ho) as [_ Hoq]. destruct Hc as [Hlive Hcnt].
    pose proof (Hcnt q o Hq Hoq) as Hco.
    pose proof (holders_pos _ _ _ Hh) as Hpos.
    pose proof (holders_le_size q (handles s)) as Hle.
    pose proof (holders_delete q h (handles s)) as Hdelq.
    destruct (decide (handles s !! h = Some q)); [| done].
    assert (Hother : ∀ x, x ≠ q → holders x (delete h (handles s)) = holders x (handles s)).
    { intros x Hx. pose proof (holders_delete x h (handles s)) as Hdel.
      destruct (decide (handles s !! h = Some x)); [congruence | lia]. }
    destruct (Z.eqb_spec (counter o) 1) as [E | E]; split; cbn [with_handles objs handles].
    + intros h' p' Hh' Hp'. apply lookup_delete_Some in Hh' as [Hne Hh'].
      assert (p' ≠ q).
      { intros ->. assert (1 ≤ holders q (delete h (handles s)))%nat; [| lia].
        eapply holders_pos. rewrite lookup_delete_ne by done. exact Hh'. }
      rewrite lookup_delete_ne by done. by eapply Hlive.
    + intros x o' Hx Ho'. apply lookup_delete_Some in Ho' as [Hne Ho'].
      rewrite Hother by done. by apply Hcnt.
    + intros h' p' Hh' Hp'. apply lookup_delete_Some in Hh' as [Hne Hh'].
      apply lookup_insert_is_Some'. right. by eapply Hlive.
    + intros x o' Hx Ho'. destruct (decide (x = q)) as [-> | Hne].
      * rewrite lookup_insert_eq in Ho'. simplify_eq. cbn [counter].
        rewrite wrap_small by lia. lia.
      * rewrite lookup_insert_ne in Ho' by done. rewrite Hother by done. by apply Hcnt.
Qed.

Lemma dtor_result h q s :
  handles s !! h = Some q →
  dtor h s = (λ r, (tt, with_handles (delete h (handles s)) r.2)) <$> release_if_set q s.
Proof.
  intros Hh. unfold dtor. unfold bind at 1. rewrite (load_ptr_step _ _ _ Hh).
  fold (release_if_set q). unfold bind.
  destruct (release_if_set q s) as [[a s2] |] eqn:Erel; [| done].
  destruct (release_if_set_handles _ _ _ _ Erel) as [Hs2 ->].
  rewrite (free_handle_step h q) by (by rewrite Hs2). by rewrite Hs2.
Qed.

Lemma keeps_count_ret {A} n (a : A) : keeps_count n (ret a) n.
Proof. intros s a' s' [= _ <-]. done. Qed.

Lemma keeps_count_bind {A B} n n1 n2 (m : M A) (k : A → M B) :
  keeps_count n m n1 → (∀ a, keeps_count n1 (k a) n2) → keeps_count n (bind m k) n2.
Proof.
  intros Hm Hk s b s' Hrun Hc Hsz. unfold bind in Hrun.
  destruct (m s) as [[a s1] |] eqn:E; [| done].
  destruct (Hm _ _ _ E Hc Hsz) as [Hc1 Hsz1]. by eapply Hk.
Qed.

Lemma keeps_count_weaken {A} n n1 n2 (m : M A) :
  (n1 ≤ n2)%nat → keeps_count n m n1 → keeps_count n m n2.
Proof.
  intros Hle Hm s a s' Hrun Hc Hsz. destruct (Hm _ _ _ Hrun Hc Hsz). split; [done | lia].
Qed.

Lemma keeps_count_temporary n : keeps_count n temporary n.
Proof. intros s a s' [= _ <-]. done. Qed.

Lemma keeps_count_ctor_default n h : keeps_count n (ctor_default h) (S n).
Proof.
  intros s a s' Hrun Hc Hsz. unfold ctor_default, alloc_handle in Hrun.
  destruct (handles s !! h) eqn:Hh; [done |]. simplify_eq. split.
  - apply (counted_rehandle s (<[h := nullptr]> (handles s))); [done |]. intros x Hx.
    pose proof (holders_insert x h nullptr (handles s)) as Hins.
    rewrite Hh in Hins. destruct (decide (None = Some x)); [done |].
    destruct (decide (nullptr = x)); [congruence | lia].
  - cbn [handles]. rewrite map_size_insert_None by done. lia.
Qed.

Lemma keeps_count_ctor_ptr n h p :
  Z.of_nat n < stored_max → keeps_count n (ctor_ptr h p true) (S n).
Proof.
  intros Hn s a s' Hrun Hc Hsz.
  destruct (handles s !! h) as [x |] eqn:Hh.
  { unfold ctor_ptr, bind, alloc_handle in Hrun. by rewrite Hh in Hrun. }
  rewrite (ctor_ptr_result _ _ _ _ Hh) in Hrun. cbn [andb] in Hrun.
  destruct ((if negb (is_null p) then intrusive_ptr_add_ref p else ret tt) s)
    as [[[] s1] |] eqn:Eacq; [| done].
  cbn in Hrun. simplify_eq. split.
  - eapply counted_acquire; [done | done | lia | exact Eacq].
  - cbn [with_handles handles]. rewrite map_size_insert_None by done. lia.
Qed.

Lemma keeps_count_ctor_copy n h r :
  Z.of_nat n < stored_max → keeps_count n (ctor_copy h r) (S n).
Proof.
  intros Hn s a s' Hrun Hc Hsz.
  destruct (handles s !! r) as [p |] eqn:Hr.
  2: { unfold ctor_copy, bind, load_ptr in Hrun. by rewrite Hr in Hrun. }
  destruct (handles s !! h) as [x |] eqn:Hh.
  { unfold ctor_copy, bind, load_ptr, alloc_handle in Hrun. by rewrite Hr, Hh in Hrun. }
  rewrite (ctor_copy_result _ _ _ _ Hr Hh) in Hrun.
  destruct ((if negb (is_null p) then intrusive_ptr_add_ref p else ret tt) s)
    as [[[] s1] |] eqn:Eacq; [| done].
  cbn in Hrun. simplify_eq. split.
  - eapply counted_acquire; [done | done | lia | exact Eacq].
  - cbn [with_handles handles]. rewrite map_size_insert_None by done. lia.
Qed.

Lemma keeps_count_ctor_move n h r : keeps_count n (ctor_move h r) (S n).
Proof.
  intros s a s' Hrun Hc Hsz.
  destruct (handles s !! r) as [p |] eqn:Hr.
  2: { unfold ctor_move, bind, load_ptr in Hrun. by rewrite Hr in Hrun. }
  destruct (handles s !! h) as [x |] eqn:Hh.
  { unfold ctor_move, bind, load_ptr, alloc_handle in Hrun. by rewrite Hr, Hh in Hrun. }
  assert (Hne : h ≠ r) by (intros ->; congruence).
  rewrite (ctor_move_result _ _ _ _ Hr Hh) in Hrun. simplify_eq. split.
  - apply counted_rehandle; [done |]. intros x Hx.
    pose proof (holders_insert x h p (handles s)) as H1.
    pose proof (holders_insert x r nullptr (<[h := p]> (handles s))) as H2.
    rewrite lookup_insert_ne, Hr in H2 by done. rewrite Hh in H1.
    destruct (decide (None = Some x)); [done |].
    destruct (decide (nullptr = x)); [congruence |].
    destruct (decide (Some p = Some x)), (decide (p = x)); try congruence; lia.
  - cbn [with_handles handles].
    rewrite map_size_insert_Some by (rewrite lookup_insert_ne by done; eauto).
    rewrite map_size_insert_None by done. lia.
Qed.

Lemma keeps_count_swap n a b : keeps_count n (swap a b) n.
Proof.
  intros s x s' Hrun Hc Hsz.
  destruct (handles s !! b) as [pb |] eqn:Hb.
  2: { unfold swap, bind, load_ptr in Hrun. by rewrite Hb in Hrun. }
  destruct (handles s !! a) as [pa |] eqn:Ha.
  2: { unfold swap, bind, load_ptr in Hrun. by rewrite Hb, Ha in Hrun. }
  rewrite (swap_step _ _ _ _ _ Ha Hb) in Hrun. simplify_eq. split.
  - apply counted_rehandle; [done |]. intros x Hx.
    pose proof (holders_insert x b pa (handles s)) as H1.
    pose proof (holders_insert x a pb (<[b := pa]> (handles s))) as H2.
    rewrite Hb in H1.
    assert (Ha' : <[b := pa]> (handles s) !! a = Some pa).
    { destruct (decide (a = b)) as [-> | Hne].
      - by rewrite lookup_insert_eq.
      - by rewrite lookup_insert_ne. }
    rewrite Ha' in H2.
    destruct (decide (Some pb = Some x)), (decide (pb = x)); try congruence;
      destruct (decide (Some pa = Some x)), (decide (pa = x)); try congruence; lia.
  - cbn [with_handles handles].
    rewrite map_size_insert_Some.
    + rewrite map_size_insert_Some by eauto. done.
    + destruct (decide (a = b)) as [-> | Hne].
      * rewrite lookup_insert_eq. eauto.
      * rewrite lookup_insert_ne by done. eauto.
Qed.

Lemma keeps_count_dtor n h :
  Z.of_nat n ≤ stored_max → keeps_count n (dtor h) n.
Proof.
  intros Hn s a s' Hrun Hc Hsz.
  destruct (handles s !! h) as [q |] eqn:Hh.
  2: { unfold dtor, bind, load_ptr in Hrun. by rewrite Hh in Hrun. }
  rewrite (dtor_result _ _ _ Hh) in Hrun.
  destruct (release_if_set q s) as [[[] s2] |] eqn:Erel; [| done].
  cbn in Hrun. simplify_eq. split.
  - eapply counted_drop; [done | done | lia | exact Erel].
  - cbn [with_handles handles]. rewrite map_size_delete_Some by eauto. lia.
Qed.

Lemma keeps_count_construct_and_swap n ctor h :
  Z.of_nat n < stored_max →
  (∀ t, keeps_count n (ctor t) (S n)) →
  keeps_count n (construct_and_swap ctor h) (S n).
Proof.
  intros Hn Hctor. unfold construct_and_swap.
  eapply keeps_count_bind; [apply keeps_count_temporary |]. intros t.
  eapply keeps_count_bind; [apply Hctor |]. intros _.
  eapply keeps_count_bind; [apply keeps_count_swap |]. intros _.
  apply keeps_count_dtor. lia.
Qed.

Lemma keeps_count_run_op n o :
  counting o = true →
  Z.of_nat n < stored_max →
  keeps_count n (run_op o) (S n).
Proof.
  intros Ho Hn.
  assert (Hret : keeps_count n (ret tt) (S n))
    by (eapply keeps_count_weaken; [| apply keeps_count_ret]; lia).
  destruct o; cbn [run_op]; cbn [counting] in Ho; try discriminate; subst;
    unfold assign_copy, assign_copy_conv, assign_ptr, assign_move, assign_move_conv,
      reset, reset_ptr, reset_ptr_add_ref;
    repeat match goal with
           | |- keeps_count _ (if ?b then _ else _) _ => destruct b
           end;
    try exact Hret;
    try (apply keeps_count_construct_and_swap; [done |]; intros t);
    auto using keeps_count_ctor_default, keeps_count_ctor_ptr, keeps_count_ctor_copy,
      keeps_count_ctor_move.
  - eapply keeps_count_weaken; [| apply keeps_count_swap]. lia.
  - eapply keeps_count_weaken; [| apply keeps_count_dtor; lia]. lia.
Qed.




(** ** The counting operations run *)

Lemma construct_and_swap_runs ctor h s s1 v q1 :
  alive h s →
  ctor (fresh (dom (handles s))) s = Some (tt, s1) →
  handles s1 !! fresh (dom (handles s)) = Some v →
  handles s1 !! h = Some q1 →
  (∃ s2, release_if_set q1 s1 = Some (tt, s2)) →
  ∃ s', construct_and_swap ctor h s = Some (tt, s').
Proof.
  intros [q Hh] Hctor Ht1 Hh1 [s2 Hrel].
  pose proof (temporary_not_alive _ _ _ Hh) as Hne.
  unfold construct_and_swap, temporary. unfold bind at 1 2. rewrite Hctor.
  rewrite (swap_then_dtor _ h v q1) by done. rewrite Hrel. cbn. eauto.
Qed.

Lemma acquire_runs p s :
  null_or_live p s →
  ∃ s1, (if negb (is_null p) then intrusive_ptr_add_ref p else ret tt) s = Some (tt, s1) ∧
        handles s1 = handles s ∧
        ∀ x, null_or_live x s → null_or_live x s1.
Proof.
  intros Hp. destruct (is_null p) eqn:Hnull; cbn [negb].
  - exists s. done.
  - assert (Hne : p ≠ nullptr) by (intros ->; done).
    destruct Hp as [-> | [o Ho]]; [done |].
    unfold intrusive_ptr_add_ref. rewrite (inc_step p s o) by (by rewrite obj_at_lookup).
    eexists. split; [done |]. split; [done |].
    intros x [-> | Hx]; [by left | right]. cbn [objs].
    apply lookup_insert_is_Some'. by right.
Qed.

Lemma release_if_set_runs q s :
  null_or_live q s → ∃ s2, release_if_set q s = Some (tt, s2).
Proof.
  intros Hq. unfold release_if_set. destruct (is_null q) eqn:Hnull; cbn [negb].
  - by exists s.
  - assert (Hne : q ≠ nullptr) by (intros ->; done).
    destruct Hq as [-> | [o Ho]]; [done |].
    rewrite (release_step q s o) by (by rewrite obj_at_lookup). eauto.
Qed.

Lemma counted_null_or_live h q s :
  counted s → handles s !! h = Some q → null_or_live q s.
Proof.
  intros [Hlive _] Hh. destruct (decide (q = nullptr)) as [-> | Hq].
  - by left.
  - right. by eapply Hlive.
Qed.

(** X9: from a counted state with room in the counter, each counting
    operation whose arguments are in order (storage for a new handle unused,
    handles it is called with alive, a raw pointer null or pointing to a
    live object) runs to completion and leaves a counted state. *)
Theorem counting_op_runs (o : op) (s : state) :
  counting o = true →
  counted s →
  Z.of_nat (size (handles s)) < stored_max →
  enabled o s →
  ∃ s', run_op o s = Some (tt, s') ∧ counted s'.
Proof.
  intros Ho Hc Hsz Hen.
  assert (Hrun : ∃ s', run_op o s = Some (tt, s')); cycle 1.
  { destruct Hrun as [s' Hrun]. exists s'. split; [done |].
    by destruct (keeps_count_run_op (size (handles s)) o Ho Hsz s tt s' Hrun Hc). }
  pose proof (temporary_fresh s) as Ht.
  assert (Hdefault : ∀ h, alive h s → ∃ s', construct_and_swap ctor_default h s = Some (tt, s')).
  { intros h [q Hh]. pose proof (temporary_not_alive _ _ _ Hh) as Hne.
    eapply (construct_and_swap_runs _ h s _ nullptr q); [by exists q | | | |].
    - unfold ctor_default. by rewrite (alloc_handle_step _ _ _ Ht).
    - cbn. by rewrite lookup_insert_eq.
    - cbn. by rewrite lookup_insert_ne.
    - apply release_if_set_runs. exact (counted_null_or_live h q s Hc Hh). }
  assert (Hptr : ∀ h p, alive h s → null_or_live p s →
                        ∃ s', construct_and_swap (λ t, ctor_ptr t p true) h s = Some (tt, s')).
  { intros h p [q Hh] Hp. pose proof (temporary_not_alive _ _ _ Hh) as Hne.
    destruct (acquire_runs p s Hp) as (s1 & Hacq & Hs1 & Hlive1).
    eapply (construct_and_swap_runs _ h s _ p q); [by exists q | | | |].
    - rewrite ctor_ptr_result by done. cbn [andb]. by rewrite Hacq.
    - cbn. by rewrite lookup_insert_eq.
    - cbn. by rewrite lookup_insert_ne.
    - apply release_if_set_runs.
      pose proof (Hlive1 q (counted_null_or_live h q s Hc Hh)) as Hq. exact Hq. }
  assert (Hcopy : ∀ h r, alive h s → alive r s →
                         ∃ s', construct_and_swap (λ t, ctor_copy t r) h s = Some (tt, s')).
  { intros h r [q Hh] [p Hr]. pose proof (temporary_not_alive _ _ _ Hh) as Hne.
    destruct (acquire_runs p s (counted_null_or_live r p s Hc Hr)) as (s1 & Hacq & Hs1 & Hlive1).
    eapply (construct_and_swap_runs _ h s _ p q); [by exists q | | | |].
    - rewrite (ctor_copy_result _ _ p) by done. by rewrite Hacq.
    - cbn. by rewrite lookup_insert_eq.
    - cbn. by rewrite lookup_insert_ne.
    - apply release_if_set_runs.
      pose proof (Hlive1 q (counted_null_or_live h q s Hc Hh)) as Hq. exact Hq. }
  assert (Hmove : ∀ h r, alive h s → alive r s →
                         ∃ s', construct_and_swap (λ t, ctor_move t r) h s = Some (tt, s')).
  { intros h r [q Hh] [p Hr]. pose proof (temporary_not_alive _ _ _ Hh) as Hne.
    pose proof (temporary_not_alive _ _ _ Hr) as Hne'.
    destruct (decide (h = r)) as [-> | Hhr].
    - eapply (construct_and_swap_runs _ r s _ p nullptr); [by exists q | | | |].
      + by apply ctor_move_result.
      + cbn. by rewrite lookup_insert_ne, lookup_insert_eq.
      + cbn. by rewrite lookup_insert_eq.
      + apply release_if_set_runs. by left.
    - eapply (construct_and_swap_runs _ h s _ p q); [by exists q | | | |].
      + by apply ctor_move_result.
      + cbn. by rewrite lookup_insert_ne, lookup_insert_eq.
      + cbn. by rewrite !lookup_insert_ne.
      + apply release_if_set_runs. exact (counted_null_or_live h q s Hc Hh). }
  destruct o; cbn [run_op]; cbn [counting] in Ho; cbn [enabled] in Hen;
    try discriminate; subst.
  - unfold ctor_default. rewrite (alloc_handle_step _ _ _ Hen). eauto.
  - destruct Hen as [Hh Hp]. rewrite ctor_ptr_result by done. cbn [andb].
    destruct (acquire_runs p s Hp) as (s1 & -> & _). cbn. eauto.
  - destruct Hen as [Hh [p Hr]]. rewrite (ctor_copy_result _ _ p) by done.
    destruct (acquire_runs p s (counted_null_or_live r p s Hc Hr)) as (s1 & -> & _).
    cbn. eauto.
  - destruct Hen as [Hh [p Hr]]. rewrite (ctor_move_result _ _ p) by done. eauto.
  - destruct Hen as [Hh Hr]. unfold assign_copy.
    destruct (bool_decide (h ≠ r)); [by apply Hcopy | by exists s].
  - destruct Hen as [Hh Hr]. by apply Hcopy.
  - destruct Hen as [Hh Hp]. by apply Hptr.
  - destruct Hen as [Hh Hr]. unfold assign_move.
    destruct (bool_decide (h ≠ r)); [by apply Hmove | by exists s].
  - destruct Hen as [Hh Hr]. by apply Hmove.
  - by apply Hdefault.
  - destruct Hen as [Hh Hp]. by apply Hptr.
  - destruct Hen as [Hh Hp]. by apply Hptr.
  - destruct Hen as [[pa Ha] [pb Hb]]. rewrite (swap_step _ _ _ _ _ Ha Hb). eauto.
  - destruct Hen as [q Hh]. rewrite (dtor_result _ _ _ Hh).
    destruct (release_if_set_runs q s (counted_null_or_live h q s Hc Hh)) as [s2 ->].
    cbn. eauto.
Qed.

Lemma counting_op_runs_witness :
  ∃ s', run_op (AssignCopy 1 2)
          (State {[5%N := {| counter := 1 |}; 6%N := {| counter := 1 |}]}
                 {[1%N := 5%N; 2%N := 6%N]} []) = Some (tt, s') ∧
        counted s'.
Proof.
  apply counting_op_runs.
  - reflexivity.
  - split; cbn [objs handles].
    + intros h p Hh Hp.
      apply lookup_insert_Some in Hh as [[_ <-] | [_ Hh]]; [by eexists |].
      apply lookup_singleton_Some in Hh as [_ <-]. by eexists.
    + intros p o _ Ho.
      apply lookup_insert_Some in Ho as [[<- <-] | [_ Ho]]; [by vm_compute |].
      apply lookup_singleton_Some in Ho as [<- <-]. by vm_compute.
  - vm_compute. reflexivity.
  - split; [exists 5%N | exists 6%N]; reflexivity.
Defined.

(** ** The last handle *)

(** X10: in a counted state, destroying a handle on a non-null object
    destroys the object exactly when that handle is the only one pointing to
    it; otherwise the object stays alive and [use_count] drops by one. *)
Theorem dtor_destroys_iff_last_holder (h p : N) (s : state) :
  counted s →
  Z.of_nat (size (handles s)) ≤ stored_max →
  handles s !! h = Some p →
  p ≠ nullptr →
  ∃ s', dtor h s = Some (tt, s') ∧
        handles s' = delete h (handles s) ∧
        (holders p (handles s) = 1%nat →
           obj_at p s' = None ∧
           trace s' = trace s ++ [EvDec p 1; EvDelete p]) ∧
        (holders p (handles s) ≠ 1%nat →
           use_count p s' = Some (Z.of_nat (holders p (handles s)) - 1, s') ∧
           trace s' = trace s ++ [EvDec p (Z.of_nat (holders p (handles s)))]).
Proof.
  intros Hc Hsz Hh Hp. destruct Hc as [Hlive Hcnt].
  destruct (Hlive h p Hh Hp) as [o Ho]. pose proof (Hcnt p o Hp Ho) as Hco.
  pose proof (holders_pos _ _ _ Hh) as Hpos.
  pose proof (holders_le_size p (handles s)) as Hle.
  rewrite (dtor_result _ _ _ Hh). unfold release_if_set.
  rewrite (is_null_false _ Hp). cbn [negb].
  rewrite (release_step p s o) by (by rewrite obj_at_lookup).
  eexists. split; [reflexivity |]. split; [by destruct (counter o =? 1) |].
  destruct (Z.eqb_spec (counter o) 1) as [E | E]; cbn [snd with_handles].
  - split; [| intros; lia]. intros _. rewrite E.
    rewrite obj_at_lookup by done. unfold with_handles. cbn [objs trace].
    by rewrite lookup_delete_eq.
  - split; [intros; lia |]. intros _. rewrite <- Hco.
    unfold use_count, read_counter. rewrite obj_at_lookup by done.
    unfold with_handles. cbn [objs trace].
    rewrite lookup_insert_eq. cbn [counter]. by rewrite wrap_small by lia.
Qed.

Lemma dtor_destroys_iff_last_holder_witness :
  ∃ s', dtor 1 (State {[5%N := {| counter := 1 |}]} {[1%N := 5%N]} []) = Some (tt, s') ∧
        obj_at 5 s' = None.
Proof.
  destruct (dtor_destroys_iff_last_holder 1 5
              (State {[5%N := {| counter := 1 |}]} {[1%N := 5%N]} []))
    as (s' & Hrun & _ & Hlast & _).
  - split; cbn [objs handles].
    + intros h p Hh Hp. apply lookup_singleton_Some in Hh as [_ <-]. by eexists.
    + intros p o _ Ho. apply lookup_singleton_Some in Ho as [<- <-]. by vm_compute.
  - vm_compute. discriminate.
  - reflexivity.
  - discriminate.
  - exists s'. split; [exact Hrun |]. apply Hlast. by vm_compute.
Defined.

(** ** Outside the counting discipline *)

(** X11: adopting, without [add_ref], a pointer that a counted handle [h]
    already holds alone, and destroying the adopting handle, destroys the
    object under [h]: [h] still stores the address, but dereferencing it and
    destroying it are undefined. *)
Theorem adoption_without_add_ref_dangles (h h' p : N) (s : state) :
  counted s →
  handles s !! h = Some p →
  p ≠ nullptr →
  holders p (handles s) = 1%nat →
  unused h' s →
  ∃ s', (ctor_ptr h' p false ;; dtor h') s = Some (tt, s') ∧
        handles s' = handles s ∧
        trace s' = trace s ++ [EvDec p 1; EvDelete p] ∧
        arrow h s' = Some (p, s') ∧
        deref h s' = None ∧
        dtor h s' = None.
Proof.
  intros [Hlive Hcnt] Hh Hp Hone Hh'. destruct (Hlive h p Hh Hp) as [o Ho].
  pose proof (Hcnt p o Hp Ho) as Hco. rewrite Hone in Hco.
  change (Z.of_nat 1) with 1 in Hco.
  unfold bind. rewrite (ctor_ptr_result _ _ _ _ Hh'). cbn [andb fmap option_fmap option_map ret snd].
  rewrite (dtor_result h' p) by (cbn; by rewrite lookup_insert_eq).
  unfold release_if_set. rewrite (is_null_false _ Hp). cbn [negb].
  rewrite (release_step p _ o) by (by rewrite obj_at_lookup).
  rewrite Hco. cbn [Z.eqb Pos.eqb fmap option_fmap option_map snd with_handles objs handles trace].
  rewrite delete_insert_eq, delete_id by done.
  eexists. split; [reflexivity |]. cbn [handles trace]. split; [done |]. split; [done |].
  split; [| split].
  - unfold arrow. by apply load_ptr_step.
  - unfold deref, bind. rewrite (load_ptr_step h p) by done. cbv beta.
    unfold obj_at, with_handles. cbn [objs].
    by rewrite (is_null_false _ Hp), lookup_delete_eq.
  - rewrite (dtor_result h p) by done. unfold release_if_set.
    rewrite (is_null_false _ Hp). cbn [negb]. rewrite release_undefined; [done |].
    unfold obj_at, with_handles. cbn [objs].
    by rewrite (is_null_false _ Hp), lookup_delete_eq.
Qed.

Lemma adoption_without_add_ref_dangles_witness :
  ∃ s', (ctor_ptr 2 5 false ;; dtor 2)
          (State {[5%N := {| counter := 1 |}]} {[1%N := 5%N]} []) = Some (tt, s') ∧
        deref 1 s' = None.
Proof.
  destruct (adoption_without_add_ref_dangles 1 2 5
              (State {[5%N := {| counter := 1 |}]} {[1%N := 5%N]} []))
    as (s' & Hrun & _ & _ & _ & Hd & _).
  - split; cbn [objs handles].
    + intros h p Hh Hp. apply lookup_singleton_Some in Hh as [_ <-]. by eexists.
    + intros p o _ Ho. apply lookup_singleton_Some in Ho as [<- <-]. by vm_compute.
  - reflexivity.
  - discriminate.
  - by vm_compute.
  - reflexivity.
  - exists s'. split; [exact Hrun | exact Hd].
Defined.

(** ** Round trips *)

(** X12: copying a handle whose object has a positive count and destroying
    the copy puts every object and every handle back as they were; the log
    gains one [inc] and one [dec], and the [dec] does not return 1. *)
Theorem copy_then_destroy_restores (h r p : N) (s : state) (o : intrusive_ref_counter) :
  handles s !! r = Some p →
  unused h s →
  obj_at p s = Some o →
  0 < counter o ≤ stored_max →
  (ctor_copy h r ;; dtor h) s =
    Some (tt, State (objs s) (handles s)
                    (trace s ++ [EvInc p; EvDec p (wrap (counter o + 1))])) ∧
  wrap (counter o + 1) ≠ 1.
Proof.
  intros Hr Hh Ho Hc. destruct (obj_at_Some _ _ _ Ho) as [Hp Hop].
  split; [| by apply wrap_succ_not_one].
  unfold bind. rewrite (ctor_copy_step _ _ _ _ _ Hr Hh Ho).
  erewrite dtor_step; cycle 1.
  { cbn [handles]. by rewrite lookup_insert_eq. }
  { by apply obj_at_insert. }
  { cbn [counter]. by apply wrap_succ_not_one. }
  cbn [objs handles trace counter]. do 2 f_equal. f_equal.
  - rewrite insert_insert_eq, wrap_succ_pred by done. apply insert_id. by destruct o.
  - by rewrite delete_insert_eq, delete_id.
  - by rewrite <- app_assoc.
Qed.

Lemma copy_then_destroy_restores_witness :
  (ctor_copy 2 1 ;; dtor 2) (State {[5%N := {| counter := 1 |}]} {[1%N := 5%N]} []) =
  Some (tt, State {[5%N := {| counter := 1 |}]} {[1%N := 5%N]} [EvInc 5; EvDec 5 2]).
Proof.
  destruct (copy_then_destroy_restores 2 1 5
              (State {[5%N := {| counter := 1 |}]} {[1%N := 5%N]} []) {| counter := 1 |})
    as [-> _].
  - reflexivity.
  - reflexivity.
  - reflexivity.
  - vm_compute. split; [reflexivity | discriminate].
  - reflexivity.
Defined.

(** X13: the two protocol operations in sequence on a live object.
    [add_ref] then [release] restores the counter when it was not 0 and
    destroys the object when it was 0; [release] then [add_ref] restores the
    counter when it was above 1 and is undefined when it was 1, because the
    release has destroyed the object. *)
Theorem add_ref_and_release_in_sequence (p : N) (s : state) (o : intrusive_ref_counter) :
  obj_at p s = Some o →
  0 ≤ counter o ≤ stored_max →
  (counter o ≠ 0 →
     (intrusive_ptr_add_ref p ;; intrusive_ptr_release p) s =
     Some (tt, State (objs s) (handles s)
                     (trace s ++ [EvInc p; EvDec p (wrap (counter o + 1))]))) ∧
  (counter o = 0 →
     (intrusive_ptr_add_ref p ;; intrusive_ptr_release p) s =
     Some (tt, State (delete p (objs s)) (handles s)
                     (trace s ++ [EvInc p; EvDec p 1; EvDelete p]))) ∧
  (counter o = 1 →
     (intrusive_ptr_release p ;; intrusive_ptr_add_ref p) s = None) ∧
  (1 < counter o →
     (intrusive_ptr_release p ;; intrusive_ptr_add_ref p) s =
     Some (tt, State (objs s) (handles s)
                     (trace s ++ [EvDec p (counter o); EvInc p]))).
Proof.
  intros Ho Hc. destruct (obj_at_Some _ _ _ Ho) as [Hp Hop].
  assert (Hm : stored_max = 4294967295) by reflexivity.
  unfold bind, intrusive_ptr_add_ref. rewrite (inc_step _ _ _ Ho), (release_step _ _ _ Ho).
  rewrite (release_step p _ {| counter := wrap (counter o + 1) |}) by (by apply obj_at_insert).
  cbn [objs handles trace counter].
  split; [| split; [| split]].
  - intros Hnz. destruct (Z.eqb_spec (wrap (counter o + 1)) 1) as [E | E].
    { apply wrap_succ_not_one in E; [done | lia]. }
    do 2 f_equal. f_equal.
    + rewrite insert_insert_eq, wrap_succ_pred by lia. apply insert_id. by destruct o.
    + by rewrite <- app_assoc.
  - intros ->. change (wrap (0 + 1)) with 1. cbn [Z.eqb Pos.eqb].
    rewrite delete_insert_eq. by rewrite <- app_assoc.
  - intros ->. cbn [Z.eqb Pos.eqb]. apply inc_undefined.
    rewrite obj_at_lookup by done. cbn [objs]. by rewrite lookup_delete_eq.
  - intros Hgt. destruct (Z.eqb_spec (counter o) 1) as [E | E]; [lia |].
    rewrite (inc_step p _ {| counter := wrap (counter o - 1) |}) by (by apply obj_at_insert).
    cbn [objs handles trace counter]. do 2 f_equal. f_equal.
    + rewrite insert_insert_eq. rewrite (wrap_small (counter o - 1)) by lia.
      replace (counter o - 1 + 1) with (counter o) by lia.
      rewrite wrap_small by lia. apply insert_id. by destruct o.
    + by rewrite <- app_assoc.
Qed.

Lemma add_ref_and_release_in_sequence_witness :
  (intrusive_ptr_release 5 ;; intrusive_ptr_add_ref 5)
    (State {[5%N := {| counter := 1 |}]} ∅ []) = None.
Proof.
  destruct (add_ref_and_release_in_sequence 5
              (State {[5%N := {| counter := 1 |}]} ∅ []) {| counter := 1 |})
    as (_ & _ & Hone & _).
  - reflexivity.
  - vm_compute. split; discriminate.
  - apply Hone. reflexivity.
Defined.
